(** * dnstwist: URL parser, permutation generator and enrichment worker

    A shallow embedding of [dnstwist.py]: the URL/domain parser
    ([UrlParser]), the permutation generator ([DomainFuzz], [DomainDict],
    [TldDict]), the per-candidate enrichment sequence of the worker
    ([DomainThread.run]) and the count and the selection [main] makes on
    the finished records, followed by the properties established for them.

    Conventions.
    - A Python [str] is the list of its code points ([list N]); [u "abc"]
      writes an ASCII literal.  Slices [s[:i]], [s[i:]] are [take i s] and
      [drop i s] (both clamp like Python's), [s[i]] inside a loop whose
      bounds keep [i] in range is the total lookup [s !!! i].
    - A [for] loop that appends to [result] is a bind in the list monad over
      [range a b].
    - What the interpreter and its libraries provide beyond the ASCII range
      (the IDNA codec on non-ASCII names, the iteration order of a [set],
      Unicode case mapping and classification) is the interface
      [PyRuntime]. *)

From Stdlib Require Import NArith ZArith String Ascii List Lia.
From stdpp Require Import base decidable option list numbers strings gmap sorting.

Open Scope N_scope.
Open Scope nat_scope.

(* ===================================================================== *)
(** ** Python strings *)
(* ===================================================================== *)

(** An ASCII literal as a [str]. *)
Definition u (s : string) : list N := N_of_ascii <$> list_ascii_of_string s.

(** [range(a, b)]: empty when [b <= a]. *)
Definition range (a b : nat) : list nat := seq a (b - a).

(** [sep.join(parts)]. *)
Fixpoint join (sep : list N) (parts : list (list N)) : list N :=
  match parts with
  | [] => []
  | [p] => p
  | p :: ps => p ++ sep ++ join sep ps
  end.

(** [s.split(sep)] for a one-character separator: never empty. *)
Fixpoint split_on (sep : N) (s : list N) : list (list N) :=
  match s with
  | [] => [[]]
  | c :: s' =>
      if (c =? sep)%N then [] :: split_on sep s'
      else match split_on sep s' with
           | p :: ps => (c :: p) :: ps
           | [] => [[c]]
           end
  end.

(** The longest prefix whose characters satisfy [p], and what follows it:
    what a greedy character-class repetition consumes. *)
Fixpoint span (p : N → bool) (s : list N) : list N * list N :=
  match s with
  | [] => ([], [])
  | c :: s' => if p c then let '(a, b) := span p s' in (c :: a, b) else ([], s)
  end.

(** [s.startswith(p)]. *)
Fixpoint startswith (p s : list N) : bool :=
  match p, s with
  | [], _ => true
  | a :: p', b :: s' => (a =? b)%N && startswith p' s'
  | _ :: _, [] => false
  end.

(** [sub in s] for strings. *)
Fixpoint contains (sub s : list N) : bool :=
  startswith sub s || match s with [] => false | _ :: s' => contains sub s' end.

(** [s.strip(chars)] for a one-character set. *)
Definition strip_char (c : N) (s : list N) : list N :=
  let drop_front := snd (span (λ x, (x =? c)%N) s) in
  reverse (snd (span (λ x, (x =? c)%N) (reverse drop_front))).

(** [filter(None, parts)]: the non-empty strings. *)
Definition filter_None (parts : list (list N)) : list (list N) :=
  filter (λ p, p ≠ []) parts.

(** [s.replace(c, g)] for a one-character [c]. *)
Definition replace_char (c : N) (g : list N) (s : list N) : list N :=
  x ← s; if (x =? c)%N then g else [x].

(** Lexicographic order on code points, the order of [sorted] on strings. *)
Fixpoint str_leb (a b : list N) : bool :=
  match a, b with
  | [], _ => true
  | _ :: _, [] => false
  | x :: a', y :: b' => (x <? y)%N || ((x =? y)%N && str_leb a' b')
  end.

Definition str_le (a b : list N) : Prop := Is_true (str_leb a b).

Instance str_le_dec a b : Decision (str_le a b).
Proof. unfold str_le. apply _. Defined.

Definition sorted (l : list (list N)) : list (list N) := merge_sort str_le l.

(** *** Character classes *)

Definition DOT : N := 46.
Definition HYPHEN : N := 45.
Definition NEWLINE : N := 10.

Definition in_range (lo hi c : N) : bool := (lo <=? c)%N && (c <=? hi)%N.

Definition is_ascii (c : N) : bool := (c <? 128)%N.
Definition is_digit (c : N) : bool := in_range 48 57 c.
Definition is_lower_az (c : N) : bool := in_range 97 122 c.
Definition is_upper_az (c : N) : bool := in_range 65 90 c.

(** Under [re.IGNORECASE] a str pattern's [[a-z]] matches the 52 ASCII
    letters and four more: U+0130, U+0131, U+017F and U+212A. *)
Definition re_az_ic (c : N) : bool :=
  is_lower_az c || is_upper_az c
  || (c =? 304)%N || (c =? 305)%N || (c =? 383)%N || (c =? 8490)%N.

(** [[a-z0-9]] and [[a-zA-Z0-9-]] under [re.IGNORECASE]. *)
Definition re_az09_ic (c : N) : bool := re_az_ic c || is_digit c.
Definition re_ldh_ic (c : N) : bool := re_az09_ic c || (c =? HYPHEN)%N.

(** [\s] of a str pattern: the Unicode whitespace characters. *)
Definition re_space (c : N) : bool :=
  in_range 9 13 c || in_range 28 32 c || (c =? 133)%N || (c =? 160)%N
  || (c =? 5760)%N || in_range 8192 8202 c || (c =? 8232)%N || (c =? 8233)%N
  || (c =? 8239)%N || (c =? 8287)%N || (c =? 12288)%N.

(* ===================================================================== *)
(** ** Exceptions and the interpreter interface *)
(* ===================================================================== *)

Inductive exn :=
  | KeyError | IndexError | UnboundLocalError | UnicodeError | ValueError
  | TypeError
  (** an exception raised inside a library call *)
  | LibraryError.

Inductive result (A : Type) :=
  | Ok (a : A)
  | Raise (e : exn).
Arguments Ok {A} a.
Arguments Raise {A} e.

(** What CPython and its standard library supply and the program only
    calls.  Each field is total on its inputs; [None] stands for the
    [UnicodeError] the codec raises. *)
Class PyRuntime := {
  (** [s.encode("idna").decode()] for a [s] holding a non-ASCII character
      (nameprep and punycode). *)
  idna_nonascii : list N → option (list N);
  (** [s.encode().decode("idna")]. *)
  idna_decode : list N → option (list N);
  (** [list(set(l))]: the elements of [l], once each, in the order the hash
      table yields them. *)
  set_to_list : list (list N) → list (list N);
  set_to_list_NoDup : ∀ l, NoDup (set_to_list l);
  set_to_list_elem : ∀ l x, x ∈ set_to_list l ↔ x ∈ l;
  (** [c.isalpha()] for a non-ASCII character. *)
  isalpha_nonascii : N → bool;
  (** [s.lower()]. *)
  str_lower : list N → list N
}.

(** [c.isalpha()]. *)
Definition isalpha `{PyRuntime} (c : N) : bool :=
  if is_ascii c then is_lower_az c || is_upper_az c else isalpha_nonascii c.

(** [s.encode("idna").decode()]: the codec returns an all-ASCII name as it
    is once every label but the last has 1 to 63 characters and the last
    fewer than 64; [None] is [UnicodeError]. *)
Definition idna_encode `{PyRuntime} (s : list N) : option (list N) :=
  if bool_decide (s = []) then Some []
  else if forallb is_ascii s then
    let labels := split_on DOT s in
    if forallb (λ l, (0 <? length l) && (length l <? 64)) (removelast labels)
       && (length (List.last labels []) <? 64)
    then Some s else None
  else idna_nonascii s.

(** An interpreter that is exact on ASCII text free of [xn--] labels, for
    concrete runs: the codec refuses every other name, a set is listed in
    first-insertion order. *)
Definition ascii_lower (c : N) : N := if is_upper_az c then (c + 32)%N else c.

Definition ascii_runtime : PyRuntime := {|
  idna_nonascii := λ _, None;
  idna_decode := λ s, Some s;
  set_to_list := remove_dups;
  set_to_list_NoDup := NoDup_remove_dups;
  set_to_list_elem := elem_of_remove_dups;
  isalpha_nonascii := λ _, false;
  str_lower := λ s, ascii_lower <$> s
|}.

(* ===================================================================== *)
(** ** UrlParser *)
(* ===================================================================== *)

Module UrlParser.

Record t := {
  url : list N;
  scheme : list N;
  authority : list N;
  domain : list N;
  path : list N;
  query : list N
}.

(** The groups of a match of [re_rfc3986_enhanced]; [path] always takes
    part in a match, the others are [None] when their group does not. *)
Record groups := {
  g_scheme : option (list N);
  g_authority : option (list N);
  g_path : list N;
  g_query : option (list N);
  g_fragment : option (list N)
}.

Definition COLON : N := 58.
Definition SLASH : N := 47.
Definition QMARK : N := 63.
Definition HASH : N := 35.

(** [[^:/?#\s]], [[^/?#\s]], [[^?#\s]], [[^#\s]], [[^\s]]. *)
Definition scheme_char (c : N) : bool :=
  negb ((c =? COLON)%N || (c =? SLASH)%N || (c =? QMARK)%N || (c =? HASH)%N || re_space c).
Definition authority_char (c : N) : bool :=
  negb ((c =? SLASH)%N || (c =? QMARK)%N || (c =? HASH)%N || re_space c).
Definition path_char (c : N) : bool :=
  negb ((c =? QMARK)%N || (c =? HASH)%N || re_space c).
Definition query_char (c : N) : bool := negb ((c =? HASH)%N || re_space c).
Definition fragment_char (c : N) : bool := negb (re_space c).

(** [re_rfc3986_enhanced.match(url)].  No class of the pattern admits
    whitespace, so a match covers the text before the first whitespace
    character, and the final [$] (under [re.MULTILINE]) requires that text
    to end the string or to be followed by a newline.  Within it every
    group is greedy and the later groups accept whatever the earlier ones
    leave, so the first, longest choice is the match. *)
Definition re_rfc3986_enhanced_match (url : list N) : option groups :=
  let '(line, rest) := span fragment_char url in
  let at_eol := match rest with [] => true | c :: _ => (c =? NEWLINE)%N end in
  if at_eol then
    let '(sch, s1) :=
      match span scheme_char line with
      | (c :: s, colon :: r) =>
          if (colon =? COLON)%N then (Some (c :: s), r) else (None, line)
      | _ => (None, line)
      end in
    let '(auth, s2) :=
      match s1 with
      | a :: b :: r =>
          if (a =? SLASH)%N && (b =? SLASH)%N
          then let '(x, r') := span authority_char r in (Some x, r')
          else (None, s1)
      | _ => (None, s1)
      end in
    let '(pth, s3) := span path_char s2 in
    let '(qry, s4) :=
      match s3 with
      | q :: r =>
          if (q =? QMARK)%N
          then let '(x, r') := span query_char r in (Some x, r')
          else (None, s3)
      | [] => (None, s3)
      end in
    let frg :=
      match s4 with
      | h :: r => if (h =? HASH)%N then Some (fst (span fragment_char r)) else None
      | [] => None
      end in
    Some {| g_scheme := sch; g_authority := auth; g_path := pth;
            g_query := qry; g_fragment := frg |}
  else None.

(** Truth value of a group: [None] and the empty string are false. *)
Definition truthy (g : option (list N)) : bool :=
  match g with
  | Some (_ :: _) => true
  | _ => false
  end.

(** A label of [allowed]: [[a-z0-9]+(-[a-z0-9]+)*], letter-digit groups
    joined by single hyphens. *)
Definition is_alnum_group (g : list N) : bool :=
  negb (bool_decide (g = [])) && forallb re_az09_ic g.
Definition is_label (l : list N) : bool :=
  forallb is_alnum_group (split_on HYPHEN l).

(** The last part of [allowed]: [[a-z]{2,}]. *)
Definition is_tld (l : list N) : bool :=
  (2 <=? length l) && forallb re_az_ic l.

(** [allowed.match(domain)] for
    [\A([a-z0-9]+(-[a-z0-9]+)*\.)+[a-z]{2,}\Z]: no part admits a dot, so
    the dots of the name are exactly the ones the pattern spells out. *)
Definition allowed_match (domain : list N) : bool :=
  match reverse (split_on DOT domain) with
  | tld :: label :: labels => is_tld tld && forallb is_label (label :: labels)
  | _ => false
  end.

(** [__validate_domain]: [domain[-1]] raises [IndexError] on the empty
    string. *)
Definition validate_domain (domain : list N) : result bool :=
  if 255 <? length domain then Ok false
  else match last domain with
       | None => Raise IndexError
       | Some c =>
           let domain := if (c =? DOT)%N then removelast domain else domain in
           Ok (allowed_match domain)
       end.

Section parse.
Context `{PyRuntime}.

(** [__parse], on the object [__init__] has filled with empty fields. *)
Definition parse (self : t) : result t :=
  match re_rfc3986_enhanced_match (url self) with
  | None => Ok self
  | Some m_uri =>
      let self :=
        match g_scheme m_uri with
        | Some (c :: s) =>
            if startswith (u "http") (c :: s)
            then {| url := url self; scheme := c :: s; authority := authority self;
                    domain := domain self; path := path self; query := query self |}
            else {| url := url self; scheme := u "http"; authority := authority self;
                    domain := domain self; path := path self; query := query self |}
        | _ => self
        end in
      let checked :=
        match g_authority m_uri with
        | Some (c :: a) =>
            let dom := str_lower (hd [] (split_on COLON (c :: a))) in
            let self := {| url := url self; scheme := scheme self; authority := c :: a;
                           domain := dom; path := path self; query := query self |} in
            match validate_domain dom with
            | Raise e => Raise e
            | Ok false => Raise ValueError
            | Ok true => Ok self
            end
        | _ => Ok self
        end in
      match checked with
      | Raise e => Raise e
      | Ok self =>
          let self :=
            match g_path m_uri with
            | _ :: _ => {| url := url self; scheme := scheme self; authority := authority self;
                           domain := domain self; path := g_path m_uri; query := query self |}
            | [] => self
            end in
          match g_query m_uri with
          | Some (c :: q) =>
              Ok {| url := url self; scheme := scheme self; authority := authority self;
                    domain := domain self; path := path self; query := u "?" ++ c :: q |}
          | _ => Ok self
          end
      end
  end.

(** [UrlParser(url)]. *)
Definition init (url0 : list N) : result t :=
  let url1 := if contains (u "://") url0 then url0 else u "http://" ++ url0 in
  parse {| url := url1; scheme := []; authority := []; domain := [];
           path := []; query := [] |}.

(** [get_full_uri]. *)
Definition get_full_uri (self : t) : list N :=
  scheme self ++ u "://" ++ domain self ++ path self ++ query self.

End parse.

End UrlParser.

(* ===================================================================== *)
(** ** DomainFuzz *)
(* ===================================================================== *)

Module DomainFuzz.

(** A candidate as the generator builds it: the dict
    [{"fuzzer": ..., "domain-name": ...}]. *)
Record entry := { fuzzer : string; domain_name : list N }.

Instance entry_eq_dec : EqDecision entry.
Proof. solve_decision. Defined.

(** The object's fields; the keyboard tables are the constants below. *)
Record t := {
  subdomain : list N;
  domain : list N;
  tld : list N;
  domains : list entry
}.

(** *** __domain_tld *)

(** [s.rsplit(".", 3)]: the last three dots split, what stands before
    them stays one part. *)
Definition rsplit_dot_3 (s : list N) : list (list N) :=
  let parts := split_on DOT s in
  let n := length parts in
  if n <=? 4 then parts
  else join (u ".") (take (n - 3) parts) :: drop (n - 3) parts.

Definition ctld : list (list N) :=
  [u "org"; u "com"; u "net"; u "gov"; u "edu"; u "co"; u "mil"; u "nom";
   u "ac"; u "info"; u "biz"].

(** [__domain_tld] where the [tld] package is missing (the branch
    [except ImportError]); [None] is the [None] the method returns when no
    [return] is reached. *)
Definition domain_tld (domain : list N) : option (list N * list N * list N) :=
  let d := rsplit_dot_3 domain in
  let n := length d in
  if n =? 2 then Some ([], d !!! 0, d !!! 1)
  else if 2 <? n then
    if bool_decide (d !!! (n - 2) ∈ ctld)
    then Some (join (u ".") (take (n - 3) d), d !!! (n - 3),
               join (u ".") (drop (n - 2) d))
    else Some (join (u ".") (take (n - 2) d), d !!! (n - 2), d !!! (n - 1))
  else None.

(** [__init__]: [sub], [dom] and [tl] are what [__domain_tld] returned for
    the domain; the candidate list starts empty. *)
Definition init (sub dom tl : list N) : t :=
  {| subdomain := sub; domain := dom; tld := tl; domains := [] |}.

Definition set_domains (self : t) (ds : list entry) : t :=
  {| subdomain := subdomain self; domain := domain self; tld := tld self;
     domains := ds |}.

(** *** Keyboard tables *)

Definition key (k v : string) : N * list N := (hd 0%N (u k), u v).

Definition qwerty : list (N * list N) :=
  [ key "1" "2q"; key "2" "3wq1"; key "3" "4ew2"; key "4" "5re3";
    key "5" "6tr4"; key "6" "7yt5"; key "7" "8uy6"; key "8" "9iu7";
    key "9" "0oi8"; key "0" "po9"; key "q" "12wa"; key "w" "3esaq2";
    key "e" "4rdsw3"; key "r" "5tfde4"; key "t" "6ygfr5"; key "y" "7uhgt6";
    key "u" "8ijhy7"; key "i" "9okju8"; key "o" "0plki9"; key "p" "lo0";
    key "a" "qwsz"; key "s" "edxzaw"; key "d" "rfcxse"; key "f" "tgvcdr";
    key "g" "yhbvft"; key "h" "ujnbgy"; key "j" "ikmnhu"; key "k" "olmji";
    key "l" "kop"; key "z" "asx"; key "x" "zsdc"; key "c" "xdfv";
    key "v" "cfgb"; key "b" "vghn"; key "n" "bhjm"; key "m" "njk" ].

Definition qwertz : list (N * list N) :=
  [ key "1" "2q"; key "2" "3wq1"; key "3" "4ew2"; key "4" "5re3";
    key "5" "6tr4"; key "6" "7zt5"; key "7" "8uz6"; key "8" "9iu7";
    key "9" "0oi8"; key "0" "po9"; key "q" "12wa"; key "w" "3esaq2";
    key "e" "4rdsw3"; key "r" "5tfde4"; key "t" "6zgfr5"; key "z" "7uhgt6";
    key "u" "8ijhz7"; key "i" "9okju8"; key "o" "0plki9"; key "p" "lo0";
    key "a" "qwsy"; key "s" "edxyaw"; key "d" "rfcxse"; key "f" "tgvcdr";
    key "g" "zhbvft"; key "h" "ujnbgz"; key "j" "ikmnhu"; key "k" "olmji";
    key "l" "kop"; key "y" "asx"; key "x" "ysdc"; key "c" "xdfv";
    key "v" "cfgb"; key "b" "vghn"; key "n" "bhjm"; key "m" "njk" ].

Definition azerty : list (N * list N) :=
  [ key "1" "2a"; key "2" "3za1"; key "3" "4ez2"; key "4" "5re3";
    key "5" "6tr4"; key "6" "7yt5"; key "7" "8uy6"; key "8" "9iu7";
    key "9" "0oi8"; key "0" "po9"; key "a" "2zq1"; key "z" "3esqa2";
    key "e" "4rdsz3"; key "r" "5tfde4"; key "t" "6ygfr5"; key "y" "7uhgt6";
    key "u" "8ijhy7"; key "i" "9okju8"; key "o" "0plki9"; key "p" "lo0m";
    key "q" "zswa"; key "s" "edxwqz"; key "d" "rfcxse"; key "f" "tgvcdr";
    key "g" "yhbvft"; key "h" "ujnbgy"; key "j" "iknhu"; key "k" "olji";
    key "l" "kopm"; key "m" "lp"; key "w" "sxq"; key "x" "wsdc";
    key "c" "xdfv"; key "v" "cfgb"; key "b" "vghn"; key "n" "bhj" ].

Definition keyboards : list (list (N * list N)) := [qwerty; qwertz; azerty].

(** [d[c]], [None] when [c not in d]. *)
Fixpoint dict_get {V : Type} (d : list (N * V)) (c : N) : option V :=
  match d with
  | [] => None
  | (k, v) :: d' => if (k =? c)%N then Some v else dict_get d' c
  end.

(** *** Homoglyph table (code points) *)

Definition glyphs : list (N * list (list N)) :=
  [ (* a: à á â ã ä å ɑ ạ ǎ ă ȧ ą *)
    (97,
      [[224]; [225]; [226]; [227]; [228]; [229]; [593]; [7841]; [462]; [259];
       [551]; [261]]);
    (* b: d lb ʙ ɓ ḃ ḅ ḇ ƅ *)
    (98,
      [[100]; [108; 98]; [665]; [595]; [7683]; [7685]; [7687]; [389]]);
    (* c: e ƈ ċ ć ç č ĉ *)
    (99,
      [[101]; [392]; [267]; [263]; [231]; [269]; [265]]);
    (* d: b cl dl ɗ đ ď ɖ ḑ ḋ ḍ ḏ ḓ *)
    (100,
      [[98]; [99; 108]; [100; 108]; [599]; [273]; [271]; [598]; [7697];
       [7691]; [7693]; [7695]; [7699]]);
    (* e: c é è ê ë ē ĕ ě ė ẹ ę ȩ ɇ ḛ *)
    (101,
      [[99]; [233]; [232]; [234]; [235]; [275]; [277]; [283]; [279]; [7865];
       [281]; [553]; [583]; [7707]]);
    (* f: ƒ ḟ *)
    (102,
      [[402]; [7711]]);
    (* g: q ɢ ɡ ġ ğ ǵ ģ ĝ ǧ ǥ *)
    (103,
      [[113]; [610]; [609]; [289]; [287]; [501]; [291]; [285]; [487]; [485]]);
    (* h: lh ĥ ȟ ħ ɦ ḧ ḩ ⱨ ḣ ḥ ḫ ẖ *)
    (104,
      [[108; 104]; [293]; [543]; [295]; [614]; [7719]; [7721]; [11368];
       [7715]; [7717]; [7723]; [7830]]);
    (* i: 1 l í ì ï ı ɩ ǐ ĭ ỉ ị ɨ ȋ ī *)
    (105,
      [[49]; [108]; [237]; [236]; [239]; [305]; [617]; [464]; [301]; [7881];
       [7883]; [616]; [523]; [299]]);
    (* j: ʝ ɉ *)
    (106,
      [[669]; [585]]);
    (* k: lk ik lc ḳ ḵ ⱪ ķ *)
    (107,
      [[108; 107]; [105; 107]; [108; 99]; [7731]; [7733]; [11370]; [311]]);
    (* l: 1 i ɫ ł *)
    (108,
      [[49]; [105]; [619]; [322]]);
    (* m: n nn rn rr ṁ ṃ ᴍ ɱ ḿ *)
    (109,
      [[110]; [110; 110]; [114; 110]; [114; 114]; [7745]; [7747]; [7437];
       [625]; [7743]]);
    (* n: m r ń ṅ ṇ ṉ ñ ņ ǹ ň ꞑ *)
    (110,
      [[109]; [114]; [324]; [7749]; [7751]; [7753]; [241]; [326]; [505];
       [328]; [42897]]);
    (* o: 0 ȯ ọ ỏ ơ ó ö *)
    (111,
      [[48]; [559]; [7885]; [7887]; [417]; [243]; [246]]);
    (* p: ƿ ƥ ṕ ṗ *)
    (112,
      [[447]; [421]; [7765]; [7767]]);
    (* q: g ʠ *)
    (113,
      [[103]; [672]]);
    (* r: ʀ ɼ ɽ ŕ ŗ ř ɍ ɾ ȓ ȑ ṙ ṛ ṟ *)
    (114,
      [[640]; [636]; [637]; [341]; [343]; [345]; [589]; [638]; [531]; [529];
       [7769]; [7771]; [7775]]);
    (* s: ʂ ś ṣ ṡ ș ŝ š *)
    (115,
      [[642]; [347]; [7779]; [7777]; [537]; [349]; [353]]);
    (* t: ţ ŧ ṫ ṭ ț ƫ *)
    (116,
      [[355]; [359]; [7787]; [7789]; [539]; [427]]);
    (* u: ᴜ ǔ ŭ ü ʉ ù ú û ũ ū ų ư ů ű ȕ ȗ ụ *)
    (117,
      [[7452]; [468]; [365]; [252]; [649]; [249]; [250]; [251]; [361]; [363];
       [371]; [432]; [367]; [369]; [533]; [535]; [7909]]);
    (* v: ṿ ⱱ ᶌ ṽ ⱴ *)
    (118,
      [[7807]; [11377]; [7564]; [7805]; [11380]]);
    (* w: vv ŵ ẁ ẃ ẅ ⱳ ẇ ẉ ẘ *)
    (119,
      [[118; 118]; [373]; [7809]; [7811]; [7813]; [11379]; [7815]; [7817];
       [7832]]);
    (* y: ʏ ý ÿ ŷ ƴ ȳ ɏ ỿ ẏ ỵ *)
    (121,
      [[655]; [253]; [255]; [375]; [436]; [563]; [591]; [7935]; [7823];
       [7925]]);
    (* z: ʐ ż ź ᴢ ƶ ẓ ẕ ⱬ *)
    (122,
      [[656]; [380]; [378]; [7458]; [438]; [7827]; [7829]; [11372]]) ]%N.

(** *** __validate_domain *)

(** A label of [allowed]: [(?!-)[a-zA-Z0-9-]{1,63}(?<!-)] followed by a
    dot. *)
Definition is_label (l : list N) : bool :=
  (1 <=? length l) && (length l <=? 63) && forallb re_ldh_ic l
  && negb (bool_decide (head l = Some HYPHEN))
  && negb (bool_decide (last l = Some HYPHEN)).

(** The last part: [[a-zA-Z]{2,63}]. *)
Definition is_tld (l : list N) : bool :=
  (2 <=? length l) && (length l <=? 63) && forallb re_az_ic l.

(** [((?!-)[a-zA-Z0-9-]{1,63}(?<!-)\.)+[a-zA-Z]{2,63}\.?] against the whole
    of [s]. *)
Definition allowed_body (s : list N) : bool :=
  let s := match last s with
           | Some c => if (c =? DOT)%N then removelast s else s
           | None => s
           end in
  match reverse (split_on DOT s) with
  | tl :: label :: labels => is_tld tl && forallb is_label (label :: labels)
  | _ => false
  end.

(** [allowed.match(s)] for
    [(?=^.{4,253}$)(^((?!-)[a-zA-Z0-9-]{1,63}(?<!-)\.)+[a-zA-Z]{2,63}\.?$)].
    Outside [re.MULTILINE] a [$] also matches before a newline that ends
    the string; nothing else in the pattern admits a newline. *)
Definition allowed_match (s : list N) : bool :=
  let s := match last s with
           | Some c => if (c =? NEWLINE)%N then removelast s else s
           | None => s
           end in
  (4 <=? length s) && (length s <=? 253) && allowed_body s.

Section generator.
Context `{PyRuntime}.

Definition validate_domain (domain : list N) : bool :=
  match idna_encode domain with
  | None => false
  | Some domain_idna =>
      if (length domain =? length domain_idna)
         && negb (bool_decide (domain = domain_idna))
      then false
      else allowed_match domain_idna
  end.

(** *** __filter_domains *)

(** One turn of the loop over [self.domains], on [(seen, filtered)]. *)
Definition filter_step (st : gset (list N) * list entry) (d : entry)
  : gset (list N) * list entry :=
  if validate_domain (domain_name d) && bool_decide (domain_name d ∉ st.1)
  then ({[ domain_name d ]} ∪ st.1, st.2 ++ [d])
  else st.

Definition filter_domains (self : t) : t :=
  set_domains self (foldl filter_step (∅, []) (domains self)).2.

(** *** The strategies *)

Definition bitsquatting (domain : list N) : list (list N) :=
  let masks := [1; 2; 4; 8; 16; 32; 64; 128]%N in
  i ← range 0 (length domain);
  let c := domain !!! i in
  j ← range 0 (length masks);
  let o := N.lxor c (masks !!! j) in
  if in_range 48 57 o || in_range 97 122 o || (o =? 45)%N
  then [take i domain ++ [o] ++ drop (i + 1) domain]
  else [].

(** One pass of [__homoglyph] over [domain]: every window, every position
    in it whose character has glyphs, every glyph. *)
Definition homoglyph_pass (domain : list N) : list (list N) :=
  ws ← range 1 (length domain);
  i ← range 0 (length domain - ws + 1);
  let win := take ws (drop i domain) in
  j ← range 0 ws;
  let c := win !!! j in
  match dict_get glyphs c with
  | Some gs =>
      g ← gs;
      [take i domain ++ replace_char c g win ++ drop (i + ws) domain]
  | None => []
  end.

Definition homoglyph (domain : list N) : list (list N) :=
  let result_1pass := homoglyph_pass domain in
  let result_2pass := d ← result_1pass; homoglyph_pass d in
  set_to_list (result_1pass ++ result_2pass).

Definition hyphenation (domain : list N) : list (list N) :=
  i ← range 1 (length domain);
  [take i domain ++ u "-" ++ drop i domain].

Definition insertion (domain : list N) : list (list N) :=
  set_to_list (
    i ← range 1 (length domain - 1);
    keys ← keyboards;
    match dict_get keys (domain !!! i) with
    | Some cs =>
        c ← cs;
        [take i domain ++ [c] ++ [domain !!! i] ++ drop (i + 1) domain;
         take i domain ++ [domain !!! i] ++ [c] ++ drop (i + 1) domain]
    | None => []
    end).

(** [re.sub(r"(.)\1+", r"\1", s)]: every run of one character other than
    a newline shrinks to that character. *)
Fixpoint collapse_runs (s : list N) : list N :=
  match s with
  | [] => []
  | c :: s' =>
      match s' with
      | d :: _ =>
          if (c =? d)%N && negb (c =? NEWLINE)%N
          then collapse_runs s'
          else c :: collapse_runs s'
      | [] => [c]
      end
  end.

Definition omission (domain : list N) : list (list N) :=
  let result := i ← range 0 (length domain);
                [take i domain ++ drop (i + 1) domain] in
  let n := collapse_runs domain in
  let result :=
    if bool_decide (n ∉ result) && negb (bool_decide (n = domain))
    then result ++ [n] else result in
  set_to_list result.

Definition repetition (domain : list N) : list (list N) :=
  set_to_list (
    i ← range 0 (length domain);
    if isalpha (domain !!! i)
    then [take i domain ++ [domain !!! i] ++ [domain !!! i] ++ drop (i + 1) domain]
    else []).

Definition replacement (domain : list N) : list (list N) :=
  set_to_list (
    i ← range 0 (length domain);
    keys ← keyboards;
    match dict_get keys (domain !!! i) with
    | Some cs => c ← cs; [take i domain ++ [c] ++ drop (i + 1) domain]
    | None => []
    end).

Definition subdomain_ (domain : list N) : list (list N) :=
  i ← range 1 (length domain - 3);
  if negb (bool_decide (domain !!! i ∈ [HYPHEN; DOT]))
     && negb (bool_decide (domain !!! (i - 1) ∈ [HYPHEN; DOT]))
  then [take i domain ++ u "." ++ drop i domain]
  else [].

Definition transposition (domain : list N) : list (list N) :=
  i ← range 0 (length domain - 1);
  if negb (N.eqb (domain !!! (i + 1)) (domain !!! i))
  then [take i domain ++ [domain !!! (i + 1)] ++ [domain !!! i] ++ drop (i + 2) domain]
  else [].

Definition vowel_swap (domain : list N) : list (list N) :=
  let vowels := u "aeiou" in
  set_to_list (
    i ← range 0 (length domain);
    vowel ← vowels;
    if bool_decide (domain !!! i ∈ vowels)
    then [take i domain ++ [vowel] ++ drop (i + 1) domain]
    else []).

Definition addition (domain : list N) : list (list N) :=
  i ← range 97 123;
  [domain ++ [N.of_nat i]].

(** *** generate *)

(** [".".join(filter(None, [self.subdomain, domain, self.tld]))]. *)
Definition assemble (self : t) (domain : list N) : list N :=
  join (u ".") (filter_None [subdomain self; domain; tld self]).

(** The entries one [for domain in self.__strategy()] loop appends. *)
Definition tagged (self : t) (tag : string) (results : list (list N)) : list entry :=
  (λ domain, {| fuzzer := tag; domain_name := assemble self domain |}) <$> results.

Definition original (self : t) : entry :=
  {| fuzzer := "Original*"; domain_name := assemble self (domain self) |}.

(** The four [Various] appends. *)
Definition various (self : t) : list entry :=
  (if bool_decide (DOT ∈ tld self)
   then [ {| fuzzer := "Various";
             domain_name := domain self ++ u "." ++ List.last (split_on DOT (tld self)) [] |};
          {| fuzzer := "Various"; domain_name := domain self ++ tld self |} ]
   else [])
  ++ (if bool_decide (DOT ∉ tld self)
      then [ {| fuzzer := "Various";
                domain_name := domain self ++ tld self ++ u "." ++ tld self |} ]
      else [])
  ++ (if negb (bool_decide (tld self = u "com")) && bool_decide (DOT ∉ tld self)
      then [ {| fuzzer := "Various";
                domain_name := domain self ++ u "-" ++ tld self ++ u ".com" |} ]
      else []).

(** Everything [generate] appends before it filters, after the
    [Original*] entry. *)
Definition permutations (self : t) : list entry :=
  tagged self "Addition" (addition (domain self))
  ++ tagged self "Bitsquatting" (bitsquatting (domain self))
  ++ tagged self "Homoglyph" (homoglyph (domain self))
  ++ tagged self "Hyphenation" (hyphenation (domain self))
  ++ tagged self "Insertion" (insertion (domain self))
  ++ tagged self "Omission" (omission (domain self))
  ++ tagged self "Repetition" (repetition (domain self))
  ++ tagged self "Replacement" (replacement (domain self))
  ++ tagged self "Subdomain" (subdomain_ (domain self))
  ++ tagged self "Transposition" (transposition (domain self))
  ++ tagged self "Vowel-swap" (vowel_swap (domain self))
  ++ various self.

Definition generate (self : t) : t :=
  filter_domains
    (set_domains self (domains self ++ original self :: permutations self)).

End generator.

End DomainFuzz.

(* ===================================================================== *)
(** ** DomainDict and TldDict *)
(* ===================================================================== *)

Module DomainDict.

(** A [DomainFuzz] with a word list. *)
Record t := { base : DomainFuzz.t; dictionary : list (list N) }.

Definition init (sub dom tl : list N) : t :=
  {| base := DomainFuzz.init sub dom tl; dictionary := [] |}.

Section expander.
Context `{PyRuntime}.

(** [word.isalpha()] for a string: non-empty, letters only. *)
Definition str_isalpha (word : list N) : bool :=
  negb (bool_decide (word = [])) && forallb isalpha word.

(** [load_dict(file)]: [file] is [None] when the path does not exist, else
    the lines the file yields. *)
Definition load_dict (self : t) (file : option (list (list N))) : t :=
  match file with
  | None => self
  | Some lines =>
      {| base := base self;
         dictionary :=
           foldl (λ dictionary line,
                    let word := strip_char NEWLINE line in
                    if str_isalpha word && bool_decide (word ∉ dictionary)
                    then dictionary ++ [word] else dictionary)
                 (dictionary self) lines |}
  end.

Definition dictionary_ (self : t) : list (list N) :=
  word ← dictionary self;
  [DomainFuzz.domain (base self) ++ u "-" ++ word;
   DomainFuzz.domain (base self) ++ word;
   word ++ u "-" ++ DomainFuzz.domain (base self);
   word ++ DomainFuzz.domain (base self)].

(** [DomainDict.generate]: appends, and does not filter. *)
Definition generate (self : t) : t :=
  {| base := DomainFuzz.set_domains (base self)
               (DomainFuzz.domains (base self)
                ++ DomainFuzz.tagged (base self) "Dictionary" (dictionary_ self));
     dictionary := dictionary self |}.

End expander.

End DomainDict.

Module TldDict.

(** [l.remove(x)]: drops the first [x]. *)
Fixpoint list_remove (x : list N) (l : list (list N)) : list (list N) :=
  match l with
  | [] => []
  | y :: l' => if bool_decide (y = x) then l' else y :: list_remove x l'
  end.

(** [TldDict.generate]: the object is a [DomainDict]; appends, and does
    not filter. *)
Definition generate (self : DomainDict.t) : DomainDict.t :=
  let b := DomainDict.base self in
  let dictionary :=
    if bool_decide (DomainFuzz.tld b ∈ DomainDict.dictionary self)
    then list_remove (DomainFuzz.tld b) (DomainDict.dictionary self)
    else DomainDict.dictionary self in
  {| DomainDict.base :=
       DomainFuzz.set_domains b
         (DomainFuzz.domains b
          ++ ((λ tl, {| DomainFuzz.fuzzer := "TLD-swap";
                        DomainFuzz.domain_name :=
                          join (u ".") (filter_None [DomainFuzz.subdomain b;
                                                     DomainFuzz.domain b; tl]) |})
              <$> dictionary));
     DomainDict.dictionary := dictionary |}.

End TldDict.

(* ===================================================================== *)
(** ** The candidate list of main *)
(* ===================================================================== *)

Section candidates.
Context `{PyRuntime}.

(** [domains] as [main] leaves it for the queue: the generator's list,
    then the expanders' lists when [--dictionary] and [--tld] are given
    (the files' lines; the paths exist, [main] exits otherwise). *)
Definition main_domains (sub dom tl : list N)
    (dictionary_file tld_file : option (list (list N))) : list DomainFuzz.entry :=
  let dfuzz := DomainFuzz.generate (DomainFuzz.init sub dom tl) in
  let domains := DomainFuzz.domains dfuzz in
  let domains :=
    match dictionary_file with
    | Some lines =>
        let ddict := DomainDict.load_dict (DomainDict.init sub dom tl) (Some lines) in
        let ddict := DomainDict.generate ddict in
        domains ++ DomainFuzz.domains (DomainDict.base ddict)
    | None => domains
    end in
  match tld_file with
  | Some lines =>
      let tlddict := DomainDict.load_dict (DomainDict.init sub dom tl) (Some lines) in
      let tlddict := TldDict.generate tlddict in
      domains ++ DomainFuzz.domains (DomainDict.base tlddict)
  | None => domains
  end.

End candidates.

(* ===================================================================== *)
(** ** DomainThread *)
(* ===================================================================== *)

Module DomainThread.

(** *** Values and the candidate record *)

(** The values a candidate dict holds.  A [str] carries the address of its
    object, which is what [is] compares; every [decode()] below yields a
    new object (CPython shares only the empty and the one-character
    strings, which no queued name is). *)
Inductive value :=
  | VStr (addr : nat) (s : list N)
  | VList (l : list (list N))
  | VBool (b : bool)
  | VInt (n : Z).

(** The function's local flags: [None] while a name is unbound.  They are
    locals of [run], so they live on from one candidate to the next. *)
Record locals := {
  nxdomain : option bool;
  dns_ns : option bool;
  dns_a : option bool;
  dns_aaaa : option bool;
  dns_mx : option bool
}.

Definition unbound : locals :=
  {| nxdomain := None; dns_ns := None; dns_a := None; dns_aaaa := None;
     dns_mx := None |}.

Inductive rdtype := NS | A | AAAA | MX.

(** What the worker sends to the outside, in order. *)
Inductive event :=
  | Query (rdtype_ : rdtype) (qname : list N)
  | GetAddrInfo (host : list N)
  | MxCheck (mx from_domain to_domain : list N)
  | Whois (name : list N)
  | GeoIPLookup (addr : list N)
  | BannerHttp (ip vhost : list N)
  | BannerSmtp (mx : list N)
  | HttpGet (uri : list N)
  | TaskDone.

Record state := {
  domain : gmap string value;
  vars : locals;
  heap_next : nat;
  log : list event;
  finished : list (gmap string value)
}.

(** *** What the network answers *)

(** [resolv.query]: an answer (the records' [str]), or one of the
    resolver's exceptions; [OtherDNSException] is any other subclass of
    [DNSException] (timeout, no answer, ...). *)
Inductive dns_outcome :=
  | Answer (records : list (list N))
  | NXDOMAIN
  | NoNameservers
  | OtherDNSException.

(** [socket.getaddrinfo]: the address of each returned tuple, a
    [gaierror] with its [errno], or another exception. *)
Inductive gai_outcome :=
  | Addresses (addrs : list (list N))
  | GaiError (errno : Z)
  | GaiOther.

(** [GeoIP.new] then [country_name_by_addr]. *)
Inductive geoip_outcome :=
  | GeoNewRaises
  | GeoLookupRaises
  | GeoCountry (country : option (list N)).

(** The outcome of every probe for one candidate.  [None] stands for an
    exception inside the probe's own [try]. *)
Record probes := {
  q_ns : dns_outcome;
  q_a : dns_outcome;
  q_aaaa : dns_outcome;
  q_mx : dns_outcome;
  gai : gai_outcome;
  (** the SMTP session of [__mxcheck] went through *)
  smtp_relay : bool;
  (** [str(creation_date)], [str(last_updated)] *)
  whois_dates : option (list N * list N);
  geoip : geoip_outcome;
  (** what [recv(1024).decode()] returned on port 80 and on port 25 *)
  http_response : option (list N);
  smtp_response : option (list N);
  (** [status_code] and the score [ssdeep.compare] gives *)
  http_get : option (Z * Z)
}.

(** The thread object: the options and the original's data. *)
Record t := {
  kill_received : bool;
  domain_orig : nat * list N;
  uri_scheme : list N;
  uri_path : list N;
  uri_query : list N;
  option_extdns : bool;
  option_geoip : bool;
  option_whois : bool;
  option_ssdeep : bool;
  option_banners : bool;
  option_mxcheck : bool
}.

(** *** The state and exception monad of [run] *)

Definition M (X : Type) : Type := state → result X * state.

Definition ret {X} (x : X) : M X := λ s, (Ok x, s).
Definition raise {X} (e : exn) : M X := λ s, (Raise e, s).
Definition bind {X Y} (m : M X) (k : X → M Y) : M Y :=
  λ s, match m s with
       | (Ok x, s') => k x s'
       | (Raise e, s') => (Raise e, s')
       end.

(** [try: x = m  except Exception: pass  else: k x]. *)
Definition try_else {X} (m : M X) (k : X → M unit) : M unit :=
  λ s, match m s with
       | (Ok x, s') => k x s'
       | (Raise _, s') => (Ok tt, s')
       end.

(** [try: m  except Exception: pass]. *)
Definition try_pass (m : M unit) : M unit := try_else m ret.

Declare Scope run_scope.
Delimit Scope run_scope with run.
Notation "x <- m ;; k" := (bind m (λ x, k))
  (at level 100, m at next level, right associativity) : run_scope.
Notation "m ;; k" := (bind m (λ _, k))
  (at level 100, right associativity) : run_scope.
Open Scope run_scope.

Definition when (b : bool) (m : M unit) : M unit := if b then m else ret tt.

Definition with_domain (f : gmap string value → gmap string value) (s : state) : state :=
  {| domain := f (domain s); vars := vars s; heap_next := heap_next s;
     log := log s; finished := finished s |}.
Definition with_vars (f : locals → locals) (s : state) : state :=
  {| domain := domain s; vars := f (vars s); heap_next := heap_next s;
     log := log s; finished := finished s |}.

(** [domain[k] = v]. *)
Definition setitem (k : string) (v : value) : M unit :=
  λ s, (Ok tt, with_domain (insert k v) s).

(** [domain[k]]. *)
Definition getitem (k : string) : M value :=
  λ s, match domain s !! k with
       | Some v => (Ok v, s)
       | None => (Raise KeyError, s)
       end.

(** [v[0]] on a list. *)
Definition first_of (v : value) : M (list N) :=
  match v with
  | VList (x :: _) => ret x
  | VList [] => raise IndexError
  | VStr _ (c :: _) => ret [c]
  | VStr _ [] => raise IndexError
  | _ => raise TypeError
  end.

(** The text of a [str] value. *)
Definition text_of (v : value) : M (list N) :=
  match v with
  | VStr _ s => ret s
  | _ => raise TypeError
  end.

(** A new [str] object. *)
Definition new_str (s : list N) : M value :=
  λ st, (Ok (VStr (heap_next st) s),
         {| domain := domain st; vars := vars st; heap_next := S (heap_next st);
            log := log st; finished := finished st |}).

Definition emit (e : event) : M unit :=
  λ s, (Ok tt, {| domain := domain s; vars := vars s; heap_next := heap_next s;
                  log := log s ++ [e]; finished := finished s |}).

(** Reading a local flag: [UnboundLocalError] while it is unbound. *)
Definition local (f : locals → option bool) : M bool :=
  λ s, match f (vars s) with
       | Some b => (Ok b, s)
       | None => (Raise UnboundLocalError, s)
       end.

Definition set_nxdomain (b : bool) : M unit :=
  λ s, (Ok tt, with_vars (λ l, {| nxdomain := Some b; dns_ns := dns_ns l; dns_a := dns_a l;
                                   dns_aaaa := dns_aaaa l; dns_mx := dns_mx l |}) s).
Definition set_dns_ns (b : bool) : M unit :=
  λ s, (Ok tt, with_vars (λ l, {| nxdomain := nxdomain l; dns_ns := Some b; dns_a := dns_a l;
                                   dns_aaaa := dns_aaaa l; dns_mx := dns_mx l |}) s).
Definition set_dns_a (b : bool) : M unit :=
  λ s, (Ok tt, with_vars (λ l, {| nxdomain := nxdomain l; dns_ns := dns_ns l; dns_a := Some b;
                                   dns_aaaa := dns_aaaa l; dns_mx := dns_mx l |}) s).
Definition set_dns_aaaa (b : bool) : M unit :=
  λ s, (Ok tt, with_vars (λ l, {| nxdomain := nxdomain l; dns_ns := dns_ns l; dns_a := dns_a l;
                                   dns_aaaa := Some b; dns_mx := dns_mx l |}) s).
Definition set_dns_mx (b : bool) : M unit :=
  λ s, (Ok tt, with_vars (λ l, {| nxdomain := nxdomain l; dns_ns := dns_ns l; dns_a := dns_a l;
                                   dns_aaaa := dns_aaaa l; dns_mx := Some b |}) s).

(** *** The helper methods *)

Definition SPACE : N := 32.

(** [s.split(sep)] for a separator of one or more characters. *)
Fixpoint split_str_aux (sep : list N) (skip : nat) (cur s : list N) : list (list N) :=
  match s with
  | [] => [reverse cur]
  | c :: s' =>
      match skip with
      | S k => split_str_aux sep k cur s'
      | O => if startswith sep s
             then reverse cur :: split_str_aux sep (length sep - 1) [] s'
             else split_str_aux sep 0 (c :: cur) s'
      end
  end.
Definition split_str (sep s : list N) : list (list N) := split_str_aux sep 0 [] s.

(** [s.strip()]. *)
Definition strip (s : list N) : list N :=
  reverse (snd (span re_space (reverse (snd (span re_space s))))).

Definition CRLF : list N := [13; 10]%N.

(** [__banner_http], from what the socket returned. *)
Definition banner_http (response : option (list N)) : option (list N) :=
  match response with
  | None => None
  | Some response =>
      let sep := if contains CRLF response then CRLF else [NEWLINE] in
      let headers := split_str sep response in
      match filter (λ field, Is_true (startswith (u "Server: ") field)) headers with
      | field :: _ => Some (drop 8 field)
      | [] =>
          let banner := split_on SPACE (hd [] headers) in
          if 1 <? length banner then Some (u "HTTP " ++ banner !!! 1) else None
      end
  end.

(** [__banner_smtp], from what the socket returned. *)
Definition banner_smtp (response : option (list N)) : option (list N) :=
  match response with
  | None => None
  | Some response =>
      let sep := if contains CRLF response then CRLF else [NEWLINE] in
      let hello := hd [] (split_str sep response) in
      if startswith (u "220") hello then Some (strip (drop 4 hello))
      else Some (take 40 hello)
  end.

(** [__mxcheck]: [True] when the session raised nothing. *)
Definition mxcheck (session_ok : bool) : bool := session_ok.

(** [answer_to_list]. *)
Definition answer_to_list (answers : list (list N)) : list (list N) :=
  sorted ((λ record,
             let parts := split_on SPACE record in
             if length parts =? 1 then strip_char DOT record
             else strip_char DOT (parts !!! 1)) <$> answers).

(** *** run, one candidate *)

Section run.
Context `{PyRuntime}.

Definition domain_name : M (list N) := v <- getitem "domain-name";; text_of v.

(** One [resolv.query] in its [try]: [flag] is set on an answer,
    [!ServFail] is stored when all nameservers failed, and any other
    resolver exception is passed over.  Only the NS query has a handler
    of its own for [NXDOMAIN]; for the others [on_nxdomain] is the [pass]
    of [except DNSException]. *)
Definition query (rd : rdtype) (key : string) (outcome : dns_outcome)
    (flag : bool → M unit) (on_nxdomain : M unit) : M unit :=
  name <- domain_name;;
  emit (Query rd name);;
  match outcome with
  | Answer records => setitem key (VList (answer_to_list records));; flag true
  | NXDOMAIN => on_nxdomain
  | NoNameservers => setitem key (VList [u "!ServFail"])
  | OtherDNSException => ret tt
  end.

(** The branch [if self.option_extdns]; building the resolver is taken to
    succeed. *)
Definition resolve_extdns (p : probes) : M unit :=
  set_nxdomain false;;
  set_dns_ns false;;
  set_dns_a false;;
  set_dns_aaaa false;;
  set_dns_mx false;;
  query NS "dns-ns" (q_ns p) set_dns_ns (set_nxdomain true);;
  (nx <- local nxdomain;;
   when (negb nx)
     (query A "dns-a" (q_a p) set_dns_a (ret tt);;
      query AAAA "dns-aaaa" (q_aaaa p) set_dns_aaaa (ret tt)));;
  nx <- local nxdomain;;
  (if negb nx
   then ns <- local dns_ns;;
        when ns (query MX "dns-mx" (q_mx p) set_dns_mx (ret tt))
   else ret tt).

(** The [else] branch: [socket.getaddrinfo]. *)
Definition resolve_getaddrinfo (p : probes) : M unit :=
  name <- domain_name;;
  emit (GetAddrInfo name);;
  match gai p with
  | GaiError errno =>
      when (bool_decide (errno = (-3)%Z)) (setitem "dns-a" (VList [u "!ServFail"]))
  | GaiOther => ret tt
  | Addresses addrs =>
      setitem "dns-a" (VList (sorted (filter (λ j, Is_true (contains (u ".") j)) addrs)));;
      setitem "dns-aaaa" (VList (sorted (filter (λ j, Is_true (contains (u ":") j)) addrs)));;
      set_dns_a true;;
      set_dns_aaaa true
  end.

(** [if self.option_mxcheck: ...]. *)
Definition mxcheck_block (self : t) (p : probes) : M unit :=
  when (option_mxcheck self)
    (mx <- local dns_mx;;
     when mx
       (v <- getitem "domain-name";;
        match v with
        | VStr addr name =>
            when (negb (addr =? fst (domain_orig self)))
              (l <- getitem "dns-mx";;
               mx0 <- first_of l;;
               emit (MxCheck mx0 (snd (domain_orig self)) name);;
               when (mxcheck (smtp_relay p)) (setitem "mx-spy" (VBool true)))
        | _ => raise TypeError
        end)).

(** [if self.option_whois: ...]. *)
Definition whois_block (self : t) (p : probes) : M unit :=
  when (option_whois self)
    (nx <- local nxdomain;;
     if negb nx
     then ns <- local dns_ns;;
          when ns
            (try_pass
               (name <- domain_name;;
                emit (Whois name);;
                match whois_dates p with
                | Some (created, updated) =>
                    c <- new_str (hd [] (split_on SPACE created));;
                    setitem "whois-created" c;;
                    d <- new_str (hd [] (split_on SPACE updated));;
                    setitem "whois-updated" d
                | None => raise LibraryError
                end))
     else ret tt).

(** [if self.option_geoip: ...]; [GeoIP.new] stands outside the [try]. *)
Definition geoip_block (self : t) (p : probes) : M unit :=
  when (option_geoip self)
    (a <- local dns_a;;
     when a
       (match geoip p with
        | GeoNewRaises => raise LibraryError
        | _ => ret tt
        end;;
        try_else
          (l <- getitem "dns-a";;
           ip <- first_of l;;
           emit (GeoIPLookup ip);;
           match geoip p with
           | GeoCountry country => ret country
           | _ => raise LibraryError
           end)
          (λ country,
             match country with
             | Some (c :: cs) =>
                 v <- new_str (hd [] (split_on 44%N (c :: cs)));;
                 setitem "geoip-country" v
             | _ => ret tt
             end))).

(** [if self.option_banners: ...]: the arguments of both calls are
    evaluated outside any [try]. *)
Definition banners_block (self : t) (p : probes) : M unit :=
  when (option_banners self)
    (a <- local dns_a;;
     a4 <- (if a then ret true else local dns_aaaa);;
     when a4
       (l <- getitem "dns-a";;
        ip <- first_of l;;
        name <- domain_name;;
        emit (BannerHttp ip name);;
        match banner_http (http_response p) with
        | Some (c :: banner) => v <- new_str (c :: banner);; setitem "banner-http" v
        | _ => ret tt
        end);;
     mx <- local dns_mx;;
     when mx
       (l <- getitem "dns-mx";;
        mx0 <- first_of l;;
        emit (BannerSmtp mx0);;
        match banner_smtp (smtp_response p) with
        | Some (c :: banner) => v <- new_str (c :: banner);; setitem "banner-smtp" v
        | _ => ret tt
        end)).

(** [if self.option_ssdeep: ...]. *)
Definition ssdeep_block (self : t) (p : probes) : M unit :=
  when (option_ssdeep self)
    (a <- local dns_a;;
     a4 <- (if a then ret true else local dns_aaaa);;
     when a4
       (try_else
          (name <- domain_name;;
           emit (HttpGet (uri_scheme self ++ u "://" ++ name ++ uri_path self
                          ++ uri_query self));;
           match http_get p with
           | Some req => ret req
           | None => raise LibraryError
           end)
          (λ req,
             when (bool_decide ((req.1 `div` 100)%Z = 2%Z))
                  (setitem "ssdeep-score" (VInt req.2))))).

(** [domain["domain-name"] = domain["domain-name"].encode("idna").decode()]
    and its inverse at the end of the loop body. *)
Definition to_ascii : M unit :=
  name <- domain_name;;
  match idna_encode name with
  | Some ascii => v <- new_str ascii;; setitem "domain-name" v
  | None => raise UnicodeError
  end.

Definition to_unicode : M unit :=
  name <- domain_name;;
  match idna_decode name with
  | Some uni => v <- new_str uni;; setitem "domain-name" v
  | None => raise UnicodeError
  end.

(** The body of the [while] loop for the candidate in [domain]. *)
Definition process (self : t) (p : probes) : M unit :=
  to_ascii;;
  (if option_extdns self then resolve_extdns p else resolve_getaddrinfo p);;
  mxcheck_block self p;;
  whois_block self p;;
  geoip_block self p;;
  banners_block self p;;
  ssdeep_block self p;;
  to_unicode;;
  emit TaskDone.

(** [run] on the jobs this worker takes from the queue, each with the
    answers the network gives for it.  The loop ends when the queue is
    empty; [stop()] from another thread is not modelled beyond the flag's
    value at entry. *)
Fixpoint run_loop (self : t) (jobs : list (gmap string value * probes)) : M unit :=
  match jobs with
  | [] => ret tt
  | (job, p) :: jobs' =>
      (λ s, (Ok tt, with_domain (λ _, job) s));;
      process self p;;
      (λ s, (Ok tt, {| domain := domain s; vars := vars s; heap_next := heap_next s;
                       log := log s; finished := finished s ++ [domain s] |}));;
      run_loop self jobs'
  end.

Definition run (self : t) (jobs : list (gmap string value * probes)) : M unit :=
  if kill_received self then ret tt else run_loop self jobs.

End run.

(** A worker's state before its first candidate. *)
Definition fresh (heap_next0 : nat) : state :=
  {| domain := ∅; vars := unbound; heap_next := heap_next0; log := [];
     finished := [] |}.

Close Scope run_scope.

End DomainThread.

(* ===================================================================== *)
(** ** main, after the workers *)
(* ===================================================================== *)

(** [sum("dns-ns" in d or "dns-a" in d for d in domains)]. *)
Definition hits_total (domains : list (gmap string DomainThread.value)) : nat :=
  sum_list ((λ d, if bool_decide (is_Some (d !! "dns-ns") ∨ is_Some (d !! "dns-a"))
                  then 1 else 0) <$> domains).

(** [[d for d in domains if len(d) > 2]], what [--registered] keeps. *)
Definition registered (domains : list (gmap string DomainThread.value))
  : list (gmap string DomainThread.value) :=
  filter (λ d, 2 < size d) domains.

(* ===================================================================== *)
(** ** Vocabulary of the properties *)
(* ===================================================================== *)

(** *** Strategies *)

(** [s] with the characters at [i] and [i + 1] exchanged. *)
Definition swap_adjacent (s : list N) (i : nat) : list N :=
  <[i := s !!! (i + 1)]> (<[i + 1 := s !!! i]> s).

(** [s] with a dot inserted before position [i]. *)
Definition dot_before (s : list N) (i : nat) : list N :=
  take i s ++ [DOT] ++ drop i s.

(** The Subdomain rule as the specification words it: a dot at every
    interior position [1 <= i <= len(s) - 1] whose two neighbours are
    neither a hyphen nor a dot. *)
Definition subdomain_every_interior (s : list N) : list (list N) :=
  dot_before s <$>
    filter (λ i, (s !!! (i - 1) ∉ [HYPHEN; DOT]) ∧ (s !!! i ∉ [HYPHEN; DOT]))
           (range 1 (length s)).

(** *** The parser's syntactic form *)

(** The form as the specification words it: at most 253 characters, every
    label of 1 to 63 letters, digits and hyphens with no hyphen first or
    last, and a last label of two or more letters. *)
Definition stated_label (l : list N) : bool :=
  (1 <=? length l) && (length l <=? 63) && forallb re_ldh_ic l
  && negb (bool_decide (head l = Some HYPHEN))
  && negb (bool_decide (last l = Some HYPHEN)).

Definition stated_form (d : list N) : bool :=
  (length d <=? 253)
  && forallb stated_label (split_on DOT d)
  && match last (split_on DOT d) with
     | Some tl => (2 <=? length tl) && forallb re_az_ic tl
     | None => false
     end.

(** The form the parser's pattern describes: one or more labels, each
    made of letter-digit groups joined by single hyphens, each followed
    by a dot, then two or more letters. *)
Definition alnum_group (g : list N) : Prop :=
  g ≠ [] ∧ Forall (λ c, Is_true (re_az09_ic c)) g.

Definition label_form (l : list N) : Prop :=
  ∃ groups, groups ≠ [] ∧ Forall alnum_group groups ∧ l = join [HYPHEN] groups.

Definition tld_form (t : list N) : Prop :=
  2 ≤ length t ∧ Forall (λ c, Is_true (re_az_ic c)) t.

Definition domain_form (d : list N) : Prop :=
  ∃ labels tl, labels ≠ [] ∧ Forall label_form labels ∧ tld_form tl
               ∧ d = join [DOT] (labels ++ [tl]).

(** The text [__parse] matches: [__init__] puts [http://] before an input
    without [://]. *)
Definition normalised (url0 : list N) : list N :=
  if contains (u "://") url0 then url0 else u "http://" ++ url0.

(** *** The worker *)

Definition answered (o : DomainThread.dns_outcome) : bool :=
  match o with DomainThread.Answer _ => true | _ => false end.

Definition is_nxdomain (o : DomainThread.dns_outcome) : bool :=
  match o with DomainThread.NXDOMAIN => true | _ => false end.

(** The candidate in [s] holds a [str] under [domain-name]. *)
Definition named (s : DomainThread.state) (name : list N) : Prop :=
  ∃ addr, DomainThread.domain s !! "domain-name" = Some (DomainThread.VStr addr name).

(** A step that succeeds and touches the local flags only. *)
Definition flags_only (m : DomainThread.M unit)
    (f : DomainThread.locals → DomainThread.locals) : Prop :=
  ∀ s, (m s).1 = Ok tt ∧ DomainThread.vars (m s).2 = f (DomainThread.vars s)
       ∧ DomainThread.domain (m s).2 = DomainThread.domain s
       ∧ DomainThread.log (m s).2 = DomainThread.log s.

(** *** Concrete worker runs *)

(** The name has a name server and an IPv6 address, no IPv4 address and
    no mail exchanger. *)
Definition only_aaaa : DomainThread.probes :=
  {| DomainThread.q_ns := DomainThread.Answer [u "ns1.example.net."];
     DomainThread.q_a := DomainThread.OtherDNSException;
     DomainThread.q_aaaa := DomainThread.Answer [u "2001:db8::1"];
     DomainThread.q_mx := DomainThread.OtherDNSException;
     DomainThread.gai := DomainThread.GaiOther;
     DomainThread.smtp_relay := false;
     DomainThread.whois_dates := None;
     DomainThread.geoip := DomainThread.GeoLookupRaises;
     DomainThread.http_response := None;
     DomainThread.smtp_response := None;
     DomainThread.http_get := None |}.

(** [getaddrinfo] returns one IPv4 address. *)
Definition one_ipv4 : DomainThread.probes :=
  {| DomainThread.q_ns := DomainThread.OtherDNSException;
     DomainThread.q_a := DomainThread.OtherDNSException;
     DomainThread.q_aaaa := DomainThread.OtherDNSException;
     DomainThread.q_mx := DomainThread.OtherDNSException;
     DomainThread.gai := DomainThread.Addresses [u "93.184.216.34"];
     DomainThread.smtp_relay := false;
     DomainThread.whois_dates := None;
     DomainThread.geoip := DomainThread.GeoLookupRaises;
     DomainThread.http_response := None;
     DomainThread.smtp_response := None;
     DomainThread.http_get := None |}.

(** The name has name servers, addresses and a mail exchanger that takes
    the test message. *)
Definition open_relay : DomainThread.probes :=
  {| DomainThread.q_ns := DomainThread.Answer [u "ns1.example.net."];
     DomainThread.q_a := DomainThread.Answer [u "93.184.216.34"];
     DomainThread.q_aaaa := DomainThread.Answer [u "2001:db8::1"];
     DomainThread.q_mx := DomainThread.Answer [u "10 mail.example.com."];
     DomainThread.gai := DomainThread.GaiOther;
     DomainThread.smtp_relay := true;
     DomainThread.whois_dates := None;
     DomainThread.geoip := DomainThread.GeoLookupRaises;
     DomainThread.http_response := None;
     DomainThread.smtp_response := None;
     DomainThread.http_get := None |}.

(** A worker for the original [example.com], whose [str] is the object at
    address 0, as [main] sets it up. *)
Definition worker (extdns banners mxcheck : bool) : DomainThread.t :=
  {| DomainThread.kill_received := false;
     DomainThread.domain_orig := (0, u "example.com");
     DomainThread.uri_scheme := u "http";
     DomainThread.uri_path := [];
     DomainThread.uri_query := [];
     DomainThread.option_extdns := extdns;
     DomainThread.option_geoip := false;
     DomainThread.option_whois := false;
     DomainThread.option_ssdeep := false;
     DomainThread.option_banners := banners;
     DomainThread.option_mxcheck := mxcheck |}.

(** A queued record whose name is the object at [addr]. *)
Definition job (tag : string) (addr : nat) (name : list N)
  : gmap string DomainThread.value :=
  {[ "fuzzer" := DomainThread.VStr (S addr) (u tag);
     "domain-name" := DomainThread.VStr addr name ]}.

(** *** The filter *)

Section filter_invariant.
Context `{PyRuntime}.

(** What [__filter_domains] maintains after the entries [ds]: [seen] holds
    the names of [filtered]; these are distinct and valid; [filtered] keeps
    the order of [ds]; an entry of [filtered] is the first of [ds] with its
    name; and every valid name of [ds] is in [filtered]. *)
Record filter_inv (ds : list DomainFuzz.entry)
    (st : gset (list N) * list DomainFuzz.entry) : Prop := {
  inv_seen : ∀ x, x ∈ st.1 ↔ x ∈ DomainFuzz.domain_name <$> st.2;
  inv_NoDup : NoDup (DomainFuzz.domain_name <$> st.2);
  inv_valid :
    Forall (λ e, DomainFuzz.validate_domain (DomainFuzz.domain_name e) = true) st.2;
  inv_sublist : sublist st.2 ds;
  inv_first : ∀ e, e ∈ st.2 →
    ∃ pre post, ds = pre ++ e :: post
                ∧ DomainFuzz.domain_name e ∉ DomainFuzz.domain_name <$> pre;
  inv_complete : ∀ e, e ∈ ds →
    DomainFuzz.validate_domain (DomainFuzz.domain_name e) = true →
    DomainFuzz.domain_name e ∈ DomainFuzz.domain_name <$> st.2
}.

End filter_invariant.

(** *** More vocabulary of the strategies *)

(** The masks of [__bitsquatting] and the bytes it keeps, [[0-9a-z-]]. *)
Definition masks : list N := [1; 2; 4; 8; 16; 32; 64; 128]%N.
Definition dns_byte (o : N) : bool :=
  in_range 48 57 o || in_range 97 122 o || (o =? 45)%N.

(** [s] holds a run: two equal neighbours other than newlines (what
    [(.)\1+] matches). *)
Definition has_run (s : list N) : Prop :=
  ∃ i c, s !! i = Some c ∧ s !! (S i) = Some c ∧ c ≠ NEWLINE.

(** *** The worker's footprint *)

(** The events a worker with the options of [self] may send. *)
Definition event_allowed (self : DomainThread.t) (e : DomainThread.event) : bool :=
  match e with
  | DomainThread.Query _ _ => DomainThread.option_extdns self
  | DomainThread.GetAddrInfo _ => negb (DomainThread.option_extdns self)
  | DomainThread.MxCheck _ _ _ => DomainThread.option_mxcheck self
  | DomainThread.Whois _ => DomainThread.option_whois self
  | DomainThread.GeoIPLookup _ => DomainThread.option_geoip self
  | DomainThread.BannerHttp _ _ | DomainThread.BannerSmtp _ =>
      DomainThread.option_banners self
  | DomainThread.HttpGet _ => DomainThread.option_ssdeep self
  | DomainThread.TaskDone => true
  end.

(** The keys a worker with the options of [self] may store. *)
Definition key_allowed (self : DomainThread.t) (k : string) : bool :=
  bool_decide (k ∈ ["domain-name"; "dns-a"; "dns-aaaa"])
  || DomainThread.option_extdns self && bool_decide (k ∈ ["dns-ns"; "dns-mx"])
  || DomainThread.option_mxcheck self && bool_decide (k = "mx-spy")
  || DomainThread.option_whois self && bool_decide (k ∈ ["whois-created"; "whois-updated"])
  || DomainThread.option_geoip self && bool_decide (k = "geoip-country")
  || DomainThread.option_banners self && bool_decide (k ∈ ["banner-http"; "banner-smtp"])
  || DomainThread.option_ssdeep self && bool_decide (k = "ssdeep-score").

(** From [s] to [s'] the worker went on within its footprint: the list of
    finished records is the same, objects were only allocated, events
    were only appended and are allowed ones, and a key whose value changed
    is an allowed one and is present. *)
Record advances (self : DomainThread.t) (s s' : DomainThread.state) : Prop := {
  adv_finished : DomainThread.finished s' = DomainThread.finished s;
  adv_heap : DomainThread.heap_next s ≤ DomainThread.heap_next s';
  adv_log : ∃ evs, DomainThread.log s' = DomainThread.log s ++ evs
                   ∧ Forall (λ e, event_allowed self e = true) evs;
  adv_domain : ∀ k, DomainThread.domain s' !! k = DomainThread.domain s !! k
                    ∨ key_allowed self k = true
                      ∧ is_Some (DomainThread.domain s' !! k)
}.

(** [m] stays within the footprint however it ends. *)
Definition sound (self : DomainThread.t) {X} (m : DomainThread.M X) : Prop :=
  ∀ s, advances self s (m s).2.

(** The local flags after an NXDOMAIN answer to the NS query. *)
Definition settled : DomainThread.locals :=
  {| DomainThread.nxdomain := Some true; DomainThread.dns_ns := Some false;
     DomainThread.dns_a := Some false; DomainThread.dns_aaaa := Some false;
     DomainThread.dns_mx := Some false |}.

(** The name does not exist. *)
Definition no_such_name : DomainThread.probes :=
  {| DomainThread.q_ns := DomainThread.NXDOMAIN;
     DomainThread.q_a := DomainThread.NXDOMAIN;
     DomainThread.q_aaaa := DomainThread.NXDOMAIN;
     DomainThread.q_mx := DomainThread.NXDOMAIN;
     DomainThread.gai := DomainThread.GaiError (-2);
     DomainThread.smtp_relay := false;
     DomainThread.whois_dates := None;
     DomainThread.geoip := DomainThread.GeoLookupRaises;
     DomainThread.http_response := None;
     DomainThread.smtp_response := None;
     DomainThread.http_get := None |}.

(* ===================================================================== *)
(** ** Properties *)
(* ===================================================================== *)

(** *** Loops over a range *)

Section list_loops.
Context {X Y : Type}.

(** A loop that appends [f x] when [P x] holds lists the images of the
    [x] that pass. *)
Lemma bind_guard_fmap (P : X → bool) (Q : X → Prop) `{!∀ x, Decision (Q x)}
    (f g : X → Y) (l : list X) :
  (∀ x, x ∈ l → (Is_true (P x) ↔ Q x) ∧ (Q x → f x = g x)) →
  (x ← l; if P x then [f x] else []) = g <$> filter Q l.
Proof.
  induction l as [|a l IH]; intros Hl; [done|].
  rewrite bind_cons, filter_cons, IH
    by (intros x Hx; apply Hl; by right).
  destruct (Hl a) as [HPQ Hfg]; [by left|].
  destruct (decide (Q a)) as [Hq|Hq].
  - apply HPQ in Hq as Hp. destruct (P a); [|done].
    simpl. by rewrite Hfg.
  - destruct (P a); [|done]. exfalso. apply Hq, HPQ. done.
Qed.

End list_loops.

Lemma elem_of_range (a b i : nat) : i ∈ range a b ↔ a ≤ i ∧ i < b.
Proof. unfold range. rewrite elem_of_seq. lia. Qed.

(** *** Transposition *)

Lemma swap_adjacent_slices (s : list N) (i : nat) :
  i + 1 < length s →
  take i s ++ [s !!! (i + 1)] ++ [s !!! i] ++ drop (i + 2) s = swap_adjacent s i.
Proof.
  intros Hi. unfold swap_adjacent.
  rewrite (insert_take_drop s (i + 1)) by done.
  rewrite insert_take_drop by (rewrite length_app, length_take; simpl; lia).
  rewrite take_app_le by (rewrite length_take; lia).
  rewrite take_take, Nat.min_l by lia.
  rewrite drop_app_length' by (rewrite length_take; lia).
  replace (S (i + 1)) with (i + 2) by lia. done.
Qed.

Lemma swap_adjacent_involutive (s : list N) (i : nat) :
  i + 1 < length s → swap_adjacent (swap_adjacent s i) i = s.
Proof.
  intros Hi. unfold swap_adjacent at 1.
  assert (Hlen : length (swap_adjacent s i) = length s)
    by (unfold swap_adjacent; by rewrite !length_insert).
  assert (H1 : swap_adjacent s i !!! (i + 1) = s !!! i).
  { apply list_lookup_total_correct. unfold swap_adjacent.
    rewrite list_lookup_insert_ne by lia.
    by rewrite list_lookup_insert_eq by lia. }
  assert (H0 : swap_adjacent s i !!! i = s !!! (i + 1)).
  { apply list_lookup_total_correct. unfold swap_adjacent.
    by rewrite list_lookup_insert_eq by (rewrite length_insert; lia). }
  rewrite H1, H0. apply list_eq. intros j.
  destruct (decide (j = i)) as [->|Hji].
  - rewrite list_lookup_insert_eq by (rewrite length_insert; lia).
    symmetry. apply list_lookup_lookup_total_lt. lia.
  - rewrite list_lookup_insert_ne by done.
    destruct (decide (j = i + 1)) as [->|Hji1].
    + rewrite list_lookup_insert_eq by lia.
      symmetry. apply list_lookup_lookup_total_lt. lia.
    + rewrite list_lookup_insert_ne by done.
      unfold swap_adjacent.
      by rewrite !list_lookup_insert_ne by done.
Qed.

(** C9.  [__transposition] returns, in order of position, the string with
    characters [i] and [i + 1] exchanged for exactly the positions
    [0 <= i < len(s) - 1] whose two characters differ (a pair of equal
    characters yields nothing), and exchanging the same pair again gives
    the input back. *)
Theorem transposition_swaps_distinct_neighbours (s : list N) :
  DomainFuzz.transposition s
  = swap_adjacent s <$> filter (λ i, s !! i ≠ s !! (i + 1)) (range 0 (length s - 1))
  ∧ ∀ i, i + 1 < length s → swap_adjacent (swap_adjacent s i) i = s.
Proof.
  split; [|apply swap_adjacent_involutive].
  unfold DomainFuzz.transposition.
  apply (bind_guard_fmap (λ i, negb (N.eqb (s !!! (i + 1)) (s !!! i)))).
  intros i [_ Hi]%elem_of_range. split.
  - rewrite !list_lookup_lookup_total_lt by lia.
    destruct (N.eqb_spec (s !!! (i + 1)) (s !!! i)) as [E|E]; simpl; split; try done.
    + intros Hne. apply Hne. by rewrite E.
    + intros _ [= E']. by apply E.
  - intros _. apply swap_adjacent_slices. lia.
Qed.

(** The involution at the first pair of [example]. *)
Lemma transposition_twice_on_example :
  swap_adjacent (swap_adjacent (u "example") 0) 0 = u "example".
Proof.
  apply (proj2 (transposition_swaps_distinct_neighbours (u "example")) 0).
  vm_compute. lia.
Defined.

(** *** Subdomain *)

(** C7, as the code has it.  [__subdomain] returns exactly the strings
    with one dot inserted before a position [i] with
    [1 <= i <= len(s) - 4] such that neither [s[i-1]] nor [s[i]] is a
    hyphen or a dot: the loop runs over [range(1, len(s) - 3)], so the last
    three interior positions get no dot. *)
Theorem subdomain_inserts_dot_up_to_len_minus_4 (s x : list N) :
  x ∈ DomainFuzz.subdomain_ s ↔
  ∃ i a b, 1 ≤ i ∧ i + 4 ≤ length s
           ∧ s !! (i - 1) = Some a ∧ s !! i = Some b
           ∧ (a ∉ [HYPHEN; DOT]) ∧ (b ∉ [HYPHEN; DOT])
           ∧ x = dot_before s i.
Proof.
  unfold DomainFuzz.subdomain_. rewrite list_elem_of_bind. split.
  - intros (i & Hx & [Hi1 Hi2]%elem_of_range).
    destruct (bool_decide (s !!! i ∈ [HYPHEN; DOT])) eqn:Eb; simpl in Hx;
      [by apply elem_of_nil in Hx|].
    destruct (bool_decide (s !!! (i - 1) ∈ [HYPHEN; DOT])) eqn:Ea; simpl in Hx;
      [by apply elem_of_nil in Hx|].
    apply list_elem_of_singleton in Hx.
    apply bool_decide_eq_false in Ea, Eb.
    exists i, (s !!! (i - 1)), (s !!! i).
    rewrite !list_lookup_lookup_total_lt by lia. repeat split; try done; lia.
  - intros (i & a & b & Hi1 & Hi2 & Ha & Hb & Hna & Hnb & ->).
    exists i. split; [|apply elem_of_range; lia].
    apply list_lookup_total_correct in Ha, Hb. rewrite Ha, Hb.
    rewrite !bool_decide_eq_false_2 by done. simpl. by left.
Qed.

(** On [example] the stated rule asks for six results, the code gives
    three: no dot goes before the last three characters. *)
Lemma subdomain_skips_last_positions :
  subdomain_every_interior (u "example")
  = [u "e.xample"; u "ex.ample"; u "exa.mple"; u "exam.ple"; u "examp.le";
     u "exampl.e"]
  ∧ DomainFuzz.subdomain_ (u "example")
    = [u "e.xample"; u "ex.ample"; u "exa.mple"].
Proof. split; vm_compute; reflexivity. Qed.

(** *** Splitting and joining *)

Section split_join.
Implicit Types (c : N) (s p : list N) (parts : list (list N)).

Lemma join_cons_cons sep p q parts :
  join sep (p :: q :: parts) = p ++ sep ++ join sep (q :: parts).
Proof. done. Qed.

Lemma split_on_nonempty c s : split_on c s ≠ [].
Proof.
  destruct s as [|a s]; simpl; [done|].
  destruct (a =? c)%N; [done|]. by destruct (split_on c s).
Qed.

Lemma join_split_on c s : join [c] (split_on c s) = s.
Proof.
  induction s as [|a s IH]; simpl; [done|].
  pose proof (split_on_nonempty c s) as Hne.
  destruct (N.eqb_spec a c) as [->|Hac].
  - destruct (split_on c s) as [|q qs]; [done|].
    rewrite join_cons_cons, IH. done.
  - destruct (split_on c s) as [|q qs]; [done|].
    destruct qs as [|q' qs]; simpl in *; by rewrite <- IH.
Qed.

Lemma split_on_no_sep c s : Forall (λ p, c ∉ p) (split_on c s).
Proof.
  induction s as [|a s IH]; simpl.
  - repeat constructor. apply not_elem_of_nil.
  - destruct (N.eqb_spec a c) as [->|Hac].
    + constructor; [apply not_elem_of_nil|done].
    + destruct (split_on c s) as [|q qs];
        [repeat constructor; by intros ->%list_elem_of_singleton|].
      inversion IH; subst. constructor; [|done].
      rewrite not_elem_of_cons. split; [congruence|done].
Qed.

Lemma split_on_app_sep c p s :
  c ∉ p → split_on c (p ++ c :: s) = p :: split_on c s.
Proof.
  induction p as [|a p IH]; intros Hp; simpl.
  - by rewrite N.eqb_refl.
  - apply not_elem_of_cons in Hp as [Hac Hp].
    destruct (N.eqb_spec a c) as [->|_]; [done|]. by rewrite IH.
Qed.

Lemma split_on_id c p : c ∉ p → split_on c p = [p].
Proof.
  induction p as [|a p IH]; intros Hp; simpl; [done|].
  apply not_elem_of_cons in Hp as [Hac Hp].
  destruct (N.eqb_spec a c) as [->|_]; [done|]. by rewrite IH.
Qed.

Lemma split_on_join c parts :
  parts ≠ [] → Forall (λ p, c ∉ p) parts → split_on c (join [c] parts) = parts.
Proof.
  induction parts as [|p parts IH]; intros Hne Hall; [done|].
  inversion Hall as [|? ? Hp Hps]; subst.
  destruct parts as [|q parts]; simpl.
  - by apply split_on_id.
  - rewrite split_on_app_sep by done. f_equal. by apply IH.
Qed.

Lemma last_join sep parts p :
  p ≠ [] → last (join sep (parts ++ [p])) = last p.
Proof.
  intros Hp. induction parts as [|q parts IH]; simpl; [done|].
  destruct (parts ++ [p]) as [|r rs] eqn:E; [by destruct parts|].
  rewrite !last_app, IH.
  destruct (last p) eqn:El; [done|]. by apply last_None in El.
Qed.

End split_join.

(** *** The parser's pattern *)

Section urlparser_form.

Lemma is_alnum_group_spec g : UrlParser.is_alnum_group g = true ↔ alnum_group g.
Proof.
  unfold UrlParser.is_alnum_group, alnum_group.
  rewrite andb_true_iff, negb_true_iff, bool_decide_eq_false.
  rewrite <- Is_true_true, forallb_True. done.
Qed.

Lemma alnum_group_no_hyphen g : alnum_group g → HYPHEN ∉ g.
Proof.
  intros [_ Hg] Hin. rewrite Forall_forall in Hg. by apply Hg in Hin.
Qed.

Lemma is_label_spec l : UrlParser.is_label l = true ↔ label_form l.
Proof.
  unfold UrlParser.is_label, label_form.
  rewrite <- Is_true_true, forallb_True. split.
  - intros Hall. exists (split_on HYPHEN l).
    split; [apply split_on_nonempty|]. split; [|by rewrite join_split_on].
    eapply Forall_impl; [exact Hall|].
    intros g Hg. apply is_alnum_group_spec, Is_true_true, Hg.
  - intros (groups & Hne & Hall & ->).
    rewrite split_on_join; [|done|].
    + eapply Forall_impl; [exact Hall|].
      intros g Hg. apply Is_true_true, is_alnum_group_spec, Hg.
    + eapply Forall_impl; [exact Hall|]. apply alnum_group_no_hyphen.
Qed.

Lemma is_tld_spec t : UrlParser.is_tld t = true ↔ tld_form t.
Proof.
  unfold UrlParser.is_tld, tld_form.
  rewrite andb_true_iff, Nat.leb_le, <- Is_true_true, forallb_True. done.
Qed.

Lemma label_form_no_dot l : label_form l → DOT ∉ l.
Proof.
  intros (groups & _ & Hall & ->).
  induction Hall as [|g groups [_ Hg] Hall IH]; intros Hin;
    [by apply elem_of_nil in Hin|].
  destruct groups as [|g' groups]; simpl in Hin.
  - rewrite Forall_forall in Hg. by apply Hg in Hin.
  - rewrite elem_of_app, elem_of_cons in Hin. destruct Hin as [Hin|[Hin|Hin]].
    + rewrite Forall_forall in Hg. by apply Hg in Hin.
    + done.
    + by apply IH.
Qed.

Lemma tld_form_no_dot t : tld_form t → DOT ∉ t.
Proof.
  intros [_ Ht] Hin. rewrite Forall_forall in Ht. by apply Ht in Hin.
Qed.

Lemma allowed_match_spec d : UrlParser.allowed_match d = true ↔ domain_form d.
Proof.
  unfold UrlParser.allowed_match, domain_form. split.
  - destruct (reverse (split_on DOT d)) as [|tld [|label labels]] eqn:E; try done.
    rewrite andb_true_iff, <- (Is_true_true (forallb _ _)), forallb_True.
    intros [Ht Hl].
    exists (reverse (label :: labels)), tld.
    assert (Hd : split_on DOT d = reverse (label :: labels) ++ [tld]).
    { rewrite <- (reverse_involutive (split_on DOT d)), E. by rewrite reverse_cons. }
    split; [rewrite reverse_cons; by destruct (reverse labels)|].
    split; [|split; [by apply is_tld_spec|by rewrite <- Hd, join_split_on]].
    apply Forall_reverse. eapply Forall_impl; [exact Hl|].
    intros l Hlab. by apply is_label_spec, Is_true_true.
  - intros (labels & tld & Hne & Hall & Ht & ->).
    rewrite split_on_join.
    + rewrite reverse_app.
      assert (Hlab : forallb UrlParser.is_label (reverse labels) = true).
      { apply Is_true_true, forallb_True, Forall_reverse.
        eapply Forall_impl; [exact Hall|].
        intros l Hl. by apply Is_true_true, is_label_spec. }
      destruct (reverse labels) as [|label labels'] eqn:E.
      { apply (f_equal reverse) in E. rewrite reverse_involutive in E. done. }
      change (reverse [tld] ++ label :: labels') with (tld :: label :: labels').
      rewrite andb_true_iff. split; [by apply is_tld_spec|exact Hlab].
    + by destruct labels.
    + apply Forall_app. split.
      * eapply Forall_impl; [exact Hall|]. apply label_form_no_dot.
      * repeat constructor. by apply tld_form_no_dot.
Qed.

Lemma domain_form_last d : domain_form d → ∃ c, last d = Some c ∧ c ≠ DOT.
Proof.
  intros (labels & tld & _ & _ & Ht & ->).
  assert (tld ≠ []) as Hne by (destruct Ht as [Hl _]; destruct tld; simpl in *; [lia|done]).
  rewrite last_join by done.
  destruct (last tld) as [c|] eqn:El; [|by apply last_None in El].
  exists c. split; [done|]. intros ->.
  apply tld_form_no_dot in Ht. apply Ht.
  apply last_Some in El as [l' ->]. apply elem_of_app. right. by left.
Qed.

(** [__validate_domain] on a non-empty domain: it answers true exactly on
    the pattern's form within 255 characters, and false on every other. *)
Lemma validate_domain_accepts_iff (domain : list N) :
  domain ≠ [] →
  let accepted :=
    length domain ≤ 255
    ∧ ∃ d, (domain = d ∨ domain = d ++ [DOT]) ∧ domain_form d in
  (UrlParser.validate_domain domain = Ok true ↔ accepted)
  ∧ (UrlParser.validate_domain domain = Ok false ↔ ¬ accepted).
Proof.
  intros Hne accepted.
  assert (Htrue : UrlParser.validate_domain domain = Ok true ↔ accepted).
  { unfold accepted, UrlParser.validate_domain.
    destruct (Nat.ltb_spec 255 (length domain)) as [Hlen|Hlen].
    { split; [done|]. intros [? _]. lia. }
    destruct (last domain) as [c|] eqn:El; [|by apply last_None in El].
    split.
    - intros [= Hm]. split; [done|]. apply allowed_match_spec in Hm.
      destruct (N.eqb_spec c DOT) as [->|Hc].
      + exists (removelast domain). split; [|done]. right.
        apply last_Some in El as [l' ->]. by rewrite removelast_last.
      + exists domain. auto.
    - intros (_ & d & Hd & Hform). f_equal. apply allowed_match_spec.
      destruct (domain_form_last d Hform) as (c' & Hc' & Hdot).
      destruct Hd as [->| ->].
      + rewrite Hc' in El. injection El as ->.
        by destruct (N.eqb_spec c DOT).
      + rewrite last_snoc in El. injection El as <-.
        by rewrite N.eqb_refl, removelast_last. }
  split; [done|].
  assert (Hbool : UrlParser.validate_domain domain = Ok true
                  ∨ UrlParser.validate_domain domain = Ok false).
  { unfold UrlParser.validate_domain.
    destruct (255 <? length domain); [by right|].
    destruct (last domain) as [c|] eqn:El; [|by apply last_None in El].
    destruct (UrlParser.allowed_match _); auto. }
  split.
  - intros Hf Ha. apply Htrue in Ha. congruence.
  - intros Hna. destruct Hbool as [Ht|Hf]; [|done]. by apply Htrue in Ht.
Qed.

End urlparser_form.

(** *** The parser on an empty authority *)

Lemma validate_domain_raises_only_IndexError (d : list N) (e : exn) :
  UrlParser.validate_domain d = Raise e → e = IndexError.
Proof.
  unfold UrlParser.validate_domain.
  destruct (255 <? length d); [done|].
  destruct (last d); [done|]. by intros [= <-].
Qed.

Section urlparser_parse.
Context `{PyRuntime}.
Import UrlParser.

(** C10.  When the pattern gives no authority, or an empty one, as for the
    empty input that becomes [http://], the constructor returns an object
    whose domain is the empty string; and it raises [ValueError] only when
    the pattern gave a non-empty authority whose lowercased host
    [__validate_domain] refuses. *)
Theorem empty_authority_never_raises (url0 : list N) :
  ((∀ m, re_rfc3986_enhanced_match (normalised url0) = Some m →
         truthy (g_authority m) = false) →
   ∃ self, init url0 = Ok self ∧ domain self = [])
  ∧ (init url0 = Raise ValueError →
     ∃ m c a, re_rfc3986_enhanced_match (normalised url0) = Some m
              ∧ g_authority m = Some (c :: a)
              ∧ validate_domain (str_lower (hd [] (split_on COLON (c :: a))))
                = Ok false).
Proof.
  unfold init, parse, normalised.
  destruct (re_rfc3986_enhanced_match _) as [m|] eqn:Em; cbn [url].
  - split.
    + intros Hauth. specialize (Hauth m eq_refl).
      destruct (g_authority m) as [[|c a]|]; try done;
        destruct (g_scheme m) as [[|c' s]|];
        try destruct (startswith (u "http") (c' :: s));
        destruct (g_path m); destruct (g_query m) as [[|c'' q]|];
        eexists; split; reflexivity.
    + intros Hraise.
      destruct (g_authority m) as [[|c a]|] eqn:Ea.
      2: { exists m, c, a. split; [done|]. split; [done|].
           destruct (validate_domain _) as [[|]|e] eqn:Ev; [|done|].
           - exfalso.
             destruct (g_scheme m) as [[|c' s]|];
               try destruct (startswith (u "http") (c' :: s));
               destruct (g_path m); destruct (g_query m) as [[|c'' q]|];
               discriminate Hraise.
           - apply validate_domain_raises_only_IndexError in Ev. subst e.
             exfalso.
             destruct (g_scheme m) as [[|c' s]|];
               try destruct (startswith (u "http") (c' :: s));
               discriminate Hraise. }
      all: exfalso;
        destruct (g_scheme m) as [[|c' s]|];
        try destruct (startswith (u "http") (c' :: s));
        destruct (g_path m); destruct (g_query m) as [[|c'' q]|];
        discriminate Hraise.
  - split; [eauto|done].
Qed.

Lemma validate_domain_answers (d : list N) :
  d ≠ [] → ∃ b, validate_domain d = Ok b.
Proof.
  intros Hne. unfold validate_domain.
  destruct (255 <? length d); [by exists false|].
  destruct (last d) as [c|] eqn:El; [by eexists|by apply last_None in El].
Qed.

(** [__parse] on a non-empty authority: the constructor returns exactly
    when the validator accepts the host, and raises [ValueError] exactly
    when it answers false. *)
Lemma init_on_authority (url0 : list N) (m : groups) (c : N) (a : list N) :
  re_rfc3986_enhanced_match (normalised url0) = Some m →
  g_authority m = Some (c :: a) →
  match validate_domain (str_lower (hd [] (split_on COLON (c :: a)))) with
  | Ok true =>
      ∃ self, init url0 = Ok self
              ∧ domain self = str_lower (hd [] (split_on COLON (c :: a)))
  | Ok false => init url0 = Raise ValueError
  | Raise e => init url0 = Raise e
  end.
Proof.
  intros Hm Ha. unfold init, parse.
  change (if contains (u "://") url0 then url0 else u "http://" ++ url0)
    with (normalised url0).
  cbn [url]. rewrite Hm, Ha.
  destruct (validate_domain _) as [[|]|e];
    destruct (g_scheme m) as [[|c' s]|];
    try destruct (startswith (u "http") (c' :: s));
    try done;
    destruct (g_path m); destruct (g_query m) as [[|c'' q]|];
    eexists; split; reflexivity.
Qed.

(** C8, as the code has it.  [UrlParser.__validate_domain] accepts a
    non-empty domain exactly when it has at most 255 characters and, with
    one final dot set aside, consists of one or more dot-terminated labels,
    each made of letter-digit groups joined by single hyphens, followed by
    two or more letters, and answers false on every other non-empty
    domain.  So for every input whose authority is not empty and gives
    that domain as its lower-cased host, the constructor returns an object
    with that domain exactly when the domain is accepted, and raises
    [ValueError] exactly when it is not.  The pattern bounds no label's
    length and admits no doubled hyphen. *)
Theorem urlparser_accepts_iff_pattern_form (domain : list N) :
  domain ≠ [] →
  let accepted :=
    length domain ≤ 255
    ∧ ∃ d, (domain = d ∨ domain = d ++ [DOT]) ∧ domain_form d in
  (validate_domain domain = Ok true ↔ accepted)
  ∧ (validate_domain domain = Ok false ↔ ¬ accepted)
  ∧ ∀ url0 m c a,
      re_rfc3986_enhanced_match (normalised url0) = Some m →
      g_authority m = Some (c :: a) →
      str_lower (hd [] (split_on COLON (c :: a))) = domain →
      (accepted ↔ ∃ self, init url0 = Ok self ∧ UrlParser.domain self = domain)
      ∧ (¬ accepted ↔ init url0 = Raise ValueError).
Proof.
  intros Hne accepted.
  destruct (validate_domain_accepts_iff domain Hne) as [Htrue Hfalse].
  fold accepted in Htrue, Hfalse.
  split; [exact Htrue|]. split; [exact Hfalse|].
  intros url0 m c a Hm Ha Hdom.
  pose proof (init_on_authority url0 m c a Hm Ha) as Hinit. rewrite Hdom in Hinit.
  destruct (validate_domain_answers domain Hne) as [b Hb]. rewrite Hb in Hinit.
  destruct b.
  - assert (Hacc : accepted) by (by apply Htrue). split.
    + split; [intros _; exact Hinit|intros _; exact Hacc].
    + split; [intros Hn; by destruct Hn|].
      intros Hr. destruct Hinit as (self & Hi & _). rewrite Hi in Hr. discriminate.
  - assert (Hnacc : ¬ accepted) by (by apply Hfalse). split.
    + split; [intros Hacc; by destruct Hnacc|].
      intros (self & Hi & _). rewrite Hinit in Hi. discriminate.
    + split; [intros _; exact Hinit|intros _; exact Hnacc].
Qed.

End urlparser_parse.

(** The theorem at [example.com], read from a URL with a port and a path. *)
Lemma urlparser_accepts_example_com :
  let domain := u "example.com" in
  let accepted :=
    length domain ≤ 255
    ∧ ∃ d, (domain = d ∨ domain = d ++ [DOT]) ∧ domain_form d in
  (UrlParser.validate_domain domain = Ok true ↔ accepted)
  ∧ (UrlParser.validate_domain domain = Ok false ↔ ¬ accepted)
  ∧ (accepted ↔ ∃ self, UrlParser.init (H := ascii_runtime) (u "http://example.com:8080/a")
                        = Ok self
                        ∧ UrlParser.domain self = domain)
  ∧ (¬ accepted ↔ UrlParser.init (H := ascii_runtime) (u "http://example.com:8080/a")
                  = Raise ValueError).
Proof.
  intros domain accepted.
  destruct (urlparser_accepts_iff_pattern_form (H := ascii_runtime)
              (u "example.com")) as (Ht & Hf & Hinit).
  { vm_compute. discriminate. }
  split; [exact Ht|]. split; [exact Hf|].
  apply (Hinit (u "http://example.com:8080/a")
           {| UrlParser.g_scheme := Some (u "http");
              UrlParser.g_authority := Some (u "example.com:8080");
              UrlParser.g_path := u "/a";
              UrlParser.g_query := None; UrlParser.g_fragment := None |}
           101%N (u "xample.com:8080")); vm_compute; reflexivity.
Defined.

(** The stated form and the parser part ways in both directions: a label
    with a doubled hyphen meets the stated form, is refused, and the
    constructor raises [ValueError]; a label of 64 letters breaks the
    stated form, is accepted, and the constructor returns. *)
Lemma urlparser_form_is_not_the_stated_one :
  (stated_form (u "a--b.com") = true
   ∧ UrlParser.validate_domain (u "a--b.com") = Ok false
   ∧ UrlParser.init (H := ascii_runtime) (u "a--b.com") = Raise ValueError)
  ∧ (stated_form (replicate 64 97%N ++ u ".com") = false
     ∧ UrlParser.validate_domain (replicate 64 97%N ++ u ".com") = Ok true
     ∧ UrlParser.init (H := ascii_runtime) (replicate 64 97%N ++ u ".com")
       = Ok {| UrlParser.url := u "http://" ++ replicate 64 97%N ++ u ".com";
               UrlParser.scheme := u "http";
               UrlParser.authority := replicate 64 97%N ++ u ".com";
               UrlParser.domain := replicate 64 97%N ++ u ".com";
               UrlParser.path := []; UrlParser.query := [] |}).
Proof. repeat split; vm_compute; reflexivity. Qed.

(** The theorem at the empty input. *)
Lemma empty_input_parses_to_empty_domain :
  ∃ self, UrlParser.init (H := ascii_runtime) (u "") = Ok self
          ∧ UrlParser.domain self = [].
Proof.
  apply (proj1 (empty_authority_never_raises (H := ascii_runtime) (u ""))).
  intros m. vm_compute. intros [= <-]. reflexivity.
Defined.

(** An authority that is only a port leaves an empty host, and
    [domain[-1]] then raises [IndexError] out of the constructor. *)
Lemma port_only_authority_raises_IndexError :
  UrlParser.init (H := ascii_runtime) (u "http://:80") = Raise IndexError.
Proof. vm_compute. reflexivity. Qed.

(** *** The filter loop *)

Section filter.
Context `{PyRuntime}.
Import DomainFuzz.
Implicit Types (d e : entry) (ds : list entry) (st : gset (list N) * list entry).

Lemma filter_inv_nil : filter_inv [] (∅, []).
Proof.
  split; simpl; try done.
  - intros x. rewrite elem_of_empty, elem_of_nil. done.
  - constructor.
  - intros e []%elem_of_nil.
  - intros e []%elem_of_nil.
Qed.

Lemma filter_inv_step ds st d :
  filter_inv ds st → filter_inv (ds ++ [d]) (filter_step st d).
Proof.
  intros [Hseen Hnd Hval Hsub Hfirst Hcompl]. unfold filter_step.
  destruct (validate_domain (domain_name d)) eqn:Ev; simpl;
    [destruct (bool_decide (domain_name d ∉ st.1)) eqn:Es; simpl|].
  - apply bool_decide_eq_true in Es. rewrite Hseen in Es.
    split; simpl.
    + intros x. rewrite elem_of_union, elem_of_singleton, fmap_app, elem_of_app.
      simpl. rewrite list_elem_of_singleton, Hseen. tauto.
    + rewrite fmap_app. apply NoDup_app. split; [done|]. split.
      * intros x Hx ->%list_elem_of_singleton. done.
      * apply NoDup_singleton.
    + apply Forall_app. split; [done|]. by repeat constructor.
    + by apply sublist_app.
    + intros e [He| ->%list_elem_of_singleton]%elem_of_app.
      * destruct (Hfirst e He) as (pre & post & -> & Hpre).
        exists pre, (post ++ [d]). by rewrite <- app_assoc.
      * exists ds, []. split; [done|]. intros Hin. apply Es.
        apply list_elem_of_fmap in Hin as (e' & Heq & He').
        rewrite Heq. apply Hcompl; [done|]. by rewrite <- Heq.
    + intros e [He| ->%list_elem_of_singleton]%elem_of_app Hv;
        rewrite fmap_app, elem_of_app.
      * left. by apply Hcompl.
      * right. by left.
  - apply bool_decide_eq_false in Es. apply dec_stable in Es.
    split; simpl; try done.
    + by apply sublist_inserts_r.
    + intros e He. destruct (Hfirst e He) as (pre & post & -> & Hpre).
      exists pre, (post ++ [d]). by rewrite <- app_assoc.
    + intros e [He| ->%list_elem_of_singleton]%elem_of_app Hv.
      * by apply Hcompl.
      * by apply Hseen.
  - split; simpl; try done.
    + by apply sublist_inserts_r.
    + intros e He. destruct (Hfirst e He) as (pre & post & -> & Hpre).
      exists pre, (post ++ [d]). by rewrite <- app_assoc.
    + intros e [He| ->%list_elem_of_singleton]%elem_of_app Hv.
      * by apply Hcompl.
      * congruence.
Qed.

Lemma filter_inv_foldl ds : filter_inv ds (foldl filter_step (∅, []) ds).
Proof.
  induction ds as [|d ds IH] using rev_ind; [apply filter_inv_nil|].
  rewrite foldl_snoc. by apply filter_inv_step.
Qed.

(** The loop only appends to [filtered]. *)
Lemma filter_step_prefix ds st : st.2 `prefix_of` (foldl filter_step st ds).2.
Proof.
  revert st. induction ds as [|d ds IH]; intros st; simpl; [done|].
  etrans; [|apply IH]. unfold filter_step.
  destruct (_ && _); simpl; [by apply prefix_app_r|done].
Qed.


Lemma filter_keeps_first ds e pre post :
  ds = pre ++ e :: post →
  domain_name e ∉ domain_name <$> pre →
  validate_domain (domain_name e) = true →
  e ∈ (foldl filter_step (∅, []) ds).2.
Proof.
  intros Hds Hpre Hv.
  destruct (filter_inv_foldl ds) as [_ _ _ _ Hfirst Hcompl].
  assert (He : e ∈ ds) by (rewrite Hds; apply elem_of_app; right; by left).
  apply Hcompl in He; [|done].
  apply list_elem_of_fmap in He as (e' & Heq & He').
  destruct (Hfirst e' He') as (pre' & post' & Hds' & Hpre').
  assert (H1 : ds !! length pre = Some e).
  { rewrite Hds, lookup_app_r, Nat.sub_diag by done. done. }
  assert (H2 : ds !! length pre' = Some e').
  { rewrite Hds', lookup_app_r, Nat.sub_diag by done. done. }
  destruct (Nat.lt_trichotomy (length pre) (length pre')) as [Hlt|[Heql|Hlt]].
  - exfalso. apply Hpre'. rewrite <- Heq. apply list_elem_of_fmap.
    exists e. split; [done|]. apply list_elem_of_lookup. exists (length pre).
    rewrite Hds', lookup_app_l in H1 by done. done.
  - rewrite Heql, H2 in H1. by injection H1 as ->.
  - exfalso. apply Hpre. rewrite Heq. apply list_elem_of_fmap.
    exists e'. split; [done|]. apply list_elem_of_lookup. exists (length pre').
    rewrite Hds, lookup_app_l in H2 by done. done.
Qed.

(** *** generate *)

Lemma generate_domains self :
  domains self = [] →
  domains (generate self)
  = (foldl filter_step (∅, []) (original self :: permutations self)).2.
Proof. intros Hnil. unfold generate, filter_domains. simpl. by rewrite Hnil. Qed.

Lemma elem_of_tagged self tag l e : e ∈ tagged self tag l → fuzzer e = tag.
Proof. intros (x & -> & _)%list_elem_of_fmap. done. Qed.

Lemma elem_of_various self e : e ∈ various self → fuzzer e = "Various".
Proof.
  unfold various. rewrite !elem_of_app.
  repeat case_bool_decide; simpl; rewrite ?elem_of_cons, ?elem_of_nil;
    intuition (subst; done).
Qed.

Lemma permutations_tag self e : e ∈ permutations self → fuzzer e ≠ "Original*".
Proof.
  unfold permutations. rewrite !elem_of_app.
  intros Hin.
  repeat (destruct Hin as [Hin|Hin]; [apply elem_of_tagged in Hin; by rewrite Hin|]).
  apply elem_of_various in Hin. by rewrite Hin.
Qed.

(** [__vowel_swap] replaces a vowel by every vowel, itself included: a
    registrable that holds a vowel is among its own results, and reaches
    the filter under the tag [Vowel-swap]. *)
Theorem vowel_swap_emits_the_input (registrable : list N) (i : nat) (c : N) :
  registrable !! i = Some c → c ∈ u "aeiou" →
  registrable ∈ vowel_swap registrable.
Proof.
  intros Hi Hc. unfold vowel_swap. apply set_to_list_elem.
  apply list_elem_of_bind. exists i. split.
  - apply list_elem_of_bind. exists c. split; [|done].
    rewrite (list_lookup_total_correct _ _ _ Hi).
    rewrite bool_decide_eq_true_2 by done.
    apply list_elem_of_singleton. symmetry.
    replace (i + 1) with (S i) by lia. by apply take_drop_middle.
  - apply elem_of_range. split; [lia|]. by eapply lookup_lt_Some.
Qed.

(** C4.  After [generate], an entry whose domain-name is the reassembled
    input is the [Original*] entry itself: whatever a strategy emitted
    under another tag with that name (Vowel-swap emits the registrable
    unchanged) is dropped by the filter, which keeps the first entry of
    each name. *)
Theorem only_the_original_entry_names_the_input (sub dom tl : list N) (e : entry) :
  let self := init sub dom tl in
  e ∈ domains (generate self) →
  domain_name e = assemble self dom →
  e = original self ∧ fuzzer e = "Original*".
Proof.
  intros self He Hname. rewrite generate_domains in He by done.
  destruct (filter_inv_foldl (original self :: permutations self))
    as [_ _ _ _ Hfirst _].
  destruct (Hfirst e He) as (pre & post & Hds & Hpre).
  destruct pre as [|d pre]; simpl in Hds.
  - injection Hds as <- _. done.
  - injection Hds as <- _. exfalso. apply Hpre. rewrite Hname. by left.
Qed.

(** C2, as the code has it.  [generate] is a total function, and when
    the reassembled input passes [__validate_domain] the list it leaves
    has the [Original*] entry, carrying the reassembled input, at index 0
    and at no other index.  (An input that the validator refuses, such as
    a registrable of 64 characters or one with a hyphen first or last,
    leaves no [Original*] entry.) *)
Theorem original_entry_first_and_only (sub dom tl : list N) :
  let self := init sub dom tl in
  validate_domain (assemble self dom) = true →
  domains (generate self) !! 0
  = Some {| fuzzer := "Original*"; domain_name := assemble self dom |}
  ∧ ∀ i e, domains (generate self) !! i = Some e → fuzzer e = "Original*" → i = 0.
Proof.
  intros self Hv. rewrite generate_domains by done.
  change {| fuzzer := "Original*"; domain_name := assemble self dom |}
    with (original self).
  pose proof (permutations_tag self) as Hperm.
  remember (permutations self) as perms eqn:E. clear E.
  pose proof (filter_inv_foldl (original self :: perms)) as [_ Hnd _ Hsub _ _].
  change (foldl filter_step (∅, []) (original self :: perms))
    with (foldl filter_step (filter_step (∅, []) (original self)) perms) in *.
  assert (Hstep : filter_step (∅, []) (original self)
                  = ({[assemble self dom]} ∪ ∅, [original self])).
  { unfold filter_step. simpl. rewrite Hv.
    rewrite bool_decide_eq_true_2 by apply not_elem_of_empty. done. }
  rewrite Hstep in *.
  destruct (filter_step_prefix perms ({[assemble self dom]} ∪ ∅, [original self]))
    as [rest Hrest].
  simpl in Hrest.
  split; [by rewrite Hrest|].
  intros i e Hi Htag.
  assert (He : e ∈ original self :: perms).
  { eapply elem_of_sublist; [|exact Hsub]. apply list_elem_of_lookup. eauto. }
  apply elem_of_cons in He as [->|He]; [|by apply Hperm in He].
  apply NoDup_fmap_1 in Hnd.
  eapply NoDup_lookup; [exact Hnd|exact Hi|]. by rewrite Hrest.
Qed.

(** An input the validator refuses loses its [Original*] entry. *)
Lemma original_dropped_when_invalid (sub dom tl : list N) :
  let self := init sub dom tl in
  validate_domain (assemble self dom) = false →
  Forall (λ e, fuzzer e ≠ "Original*") (domains (generate self)).
Proof.
  intros self Hv. rewrite generate_domains by done.
  destruct (filter_inv_foldl (original self :: permutations self))
    as [_ _ Hval Hsub _ _].
  apply Forall_forall. intros e He Htag.
  assert (He' : e ∈ original self :: permutations self)
    by (eapply elem_of_sublist; eauto).
  apply elem_of_cons in He' as [->|He']; [|by apply permutations_tag in He'].
  rewrite Forall_forall in Hval. apply Hval in He. simpl in He. congruence.
Qed.

(** The list [generate] leaves holds each domain-name once, compared as
    stored, and only names that pass [__validate_domain]. *)
Theorem generate_names_distinct_and_valid (sub dom tl : list N) :
  let out := domains (generate (init sub dom tl)) in
  NoDup (domain_name <$> out)
  ∧ Forall (λ e, validate_domain (domain_name e) = true) out.
Proof.
  intros out. unfold out. rewrite generate_domains by done.
  destruct (filter_inv_foldl
              (original (init sub dom tl) :: permutations (init sub dom tl)))
    as [_ Hnd Hval _ _ _].
  done.
Qed.

(** C3 at the failing input [example.com] with a dictionary holding [a]
    and a TLD list holding [c].  The expanders' entries are appended
    after the generator has filtered and are never filtered themselves:
    [examplea.com] is queued twice, under [Addition] and under
    [Dictionary], and [example.c], which the validator refuses, is queued
    under [TLD-swap]. *)
Theorem expanders_bypass_the_filter :
  let candidates :=
    main_domains [] (u "example") (u "com")
      (Some [u "a" ++ [NEWLINE]]) (Some [u "c" ++ [NEWLINE]]) in
  (∃ i j, i < j
     ∧ candidates !! i
       = Some {| fuzzer := "Addition"; domain_name := u "examplea.com" |}
     ∧ candidates !! j
       = Some {| fuzzer := "Dictionary"; domain_name := u "examplea.com" |})
  ∧ (∃ k, candidates !! k
          = Some {| fuzzer := "TLD-swap"; domain_name := u "example.c" |}
          ∧ validate_domain (u "example.c") = false).
Proof.
  intros candidates. unfold candidates, main_domains.
  set (D := domains (generate (init [] (u "example") (u "com")))).
  assert (Hdict :
    domains (DomainDict.base (DomainDict.generate
      (DomainDict.load_dict (DomainDict.init [] (u "example") (u "com"))
         (Some [u "a" ++ [NEWLINE]]))))
    = [ {| fuzzer := "Dictionary"; domain_name := u "example-a.com" |};
        {| fuzzer := "Dictionary"; domain_name := u "examplea.com" |};
        {| fuzzer := "Dictionary"; domain_name := u "a-example.com" |};
        {| fuzzer := "Dictionary"; domain_name := u "aexample.com" |} ])
    by (vm_compute; reflexivity).
  assert (Htld :
    domains (DomainDict.base (TldDict.generate
      (DomainDict.load_dict (DomainDict.init [] (u "example") (u "com"))
         (Some [u "c" ++ [NEWLINE]]))))
    = [ {| fuzzer := "TLD-swap"; domain_name := u "example.c" |} ])
    by (vm_compute; reflexivity).
  rewrite Hdict, Htld.
  assert (Hin : {| fuzzer := "Addition"; domain_name := u "examplea.com" |} ∈ D).
  { unfold D. rewrite generate_domains by done.
    assert (Hadd : addition (u "example")
                   = u "examplea" :: tail (addition (u "example")))
      by (vm_compute; reflexivity).
    eapply (filter_keeps_first _ _ [_]).
    - unfold permutations. cbn [domain init]. rewrite Hadd. reflexivity.
    - intros (e' & Heq & ->%list_elem_of_singleton)%list_elem_of_fmap.
      vm_compute in Heq. discriminate.
    - vm_compute. reflexivity. }
  apply list_elem_of_lookup in Hin as [i Hi].
  pose proof (lookup_lt_Some _ _ _ Hi) as Hlt.
  split.
  - exists i, (length D + 1). split; [lia|]. split.
    + rewrite <- app_assoc. by rewrite lookup_app_l.
    + rewrite <- app_assoc, lookup_app_r by lia.
      replace (length D + 1 - length D) with 1 by lia. reflexivity.
  - exists (length D + 4). split; [|vm_compute; reflexivity].
    rewrite <- app_assoc, lookup_app_r by lia.
    replace (length D + 4 - length D) with 4 by lia. reflexivity.
Qed.

End filter.

(** The theorem at [ab.com]. *)
Lemma original_entry_first_for_ab_com :
  let self := DomainFuzz.init [] (u "ab") (u "com") in
  DomainFuzz.domains (DomainFuzz.generate (H := ascii_runtime) self) !! 0
  = Some {| DomainFuzz.fuzzer := "Original*"; DomainFuzz.domain_name := u "ab.com" |}
  ∧ ∀ i e, DomainFuzz.domains (DomainFuzz.generate (H := ascii_runtime) self) !! i
           = Some e →
           DomainFuzz.fuzzer e = "Original*" → i = 0.
Proof.
  apply (original_entry_first_and_only (H := ascii_runtime) [] (u "ab") (u "com")).
  vm_compute. reflexivity.
Defined.

(** The theorem at the first entry for [ab.com]. *)
Lemma original_entry_names_ab_com :
  let e := {| DomainFuzz.fuzzer := "Original*"; DomainFuzz.domain_name := u "ab.com" |} in
  e = DomainFuzz.original (DomainFuzz.init [] (u "ab") (u "com"))
  ∧ DomainFuzz.fuzzer e = "Original*".
Proof.
  apply (only_the_original_entry_names_the_input (H := ascii_runtime)
           [] (u "ab") (u "com")).
  - apply list_elem_of_lookup. exists 0. vm_compute. reflexivity.
  - vm_compute. reflexivity.
Defined.

(** A registrable of 64 letters [a] is over the stated alphabet, and
    [UrlParser] accepts the domain it makes with [com]; yet it is too long
    for a label, the validator refuses the reassembled input, and the list
    [generate] leaves has no [Original*] entry. *)
Lemma long_registrable_loses_original :
  let registrable := replicate 64 97%N in
  (2 ≤ length registrable
   ∧ forallb (λ c, is_lower_az c || is_digit c || (c =? HYPHEN)%N) registrable = true
   ∧ UrlParser.validate_domain (registrable ++ u ".com") = Ok true)
  ∧ Forall (λ e, DomainFuzz.fuzzer e ≠ "Original*")
      (DomainFuzz.domains
         (DomainFuzz.generate (H := ascii_runtime)
            (DomainFuzz.init [] registrable (u "com")))).
Proof.
  split.
  - repeat split; vm_compute; [lia|reflexivity..].
  - apply (original_dropped_when_invalid (H := ascii_runtime)).
    vm_compute. reflexivity.
Qed.

(** The theorem at the first letter of [example]. *)
Lemma vowel_swap_emits_example :
  u "example" ∈ DomainFuzz.vowel_swap (H := ascii_runtime) (u "example").
Proof.
  apply (vowel_swap_emits_the_input (H := ascii_runtime) (u "example") 0 101%N).
  - vm_compute. reflexivity.
  - vm_compute. apply elem_of_cons. right. by left.
Defined.

(** *** The resolver branch of the worker *)

Section resolver.
Context `{PyRuntime}.
Import DomainThread.
Open Scope run_scope.

Lemma bind_run {X Y} (m : M X) (k : X → M Y) s x :
  (m s).1 = Ok x → bind m k s = k x (m s).2.
Proof. unfold bind. destruct (m s) as [[a|e] s']; simpl; intros [=]; by subst. Qed.

Lemma local_run (f : locals → option bool) s b :
  f (vars s) = Some b → local f s = (Ok b, s).
Proof. unfold local. by intros ->. Qed.

Lemma domain_name_run s name : named s name → domain_name s = (Ok name, s).
Proof.
  intros [addr Hname]. unfold domain_name, bind, getitem. by rewrite Hname.
Qed.

Lemma query_run rd key outcome flag fl onx fx s name :
  (∀ b, flags_only (flag b) (fl b)) → flags_only onx fx →
  key ≠ "domain-name" → named s name →
  let r := query rd key outcome flag onx s in
  r.1 = Ok tt ∧ named r.2 name
  ∧ log r.2 = log s ++ [Query rd name]
  ∧ vars r.2 = match outcome with
               | Answer _ => fl true (vars s)
               | NXDOMAIN => fx (vars s)
               | _ => vars s
               end.
Proof.
  intros Hflag Honx Hkey Hname. unfold query.
  rewrite (bind_run _ _ _ name) by (by rewrite (domain_name_run s name)).
  rewrite (domain_name_run s name) by done. cbn [snd].
  rewrite (bind_run _ _ _ tt) by done.
  set (s2 := (emit (Query rd name) s).2).
  assert (Hn2 : named s2 name) by exact Hname.
  destruct Hn2 as [addr Hn2].
  destruct outcome as [records| | |].
  - rewrite (bind_run _ _ _ tt) by done.
    set (s3 := (setitem key (VList (answer_to_list records)) s2).2).
    destruct (Hflag true s3) as (R & V & D & L).
    cbn zeta. unfold named. rewrite R, V, D, L. repeat split.
    exists addr. subst s3. cbn [setitem snd with_domain domain].
    by rewrite lookup_insert_ne.
  - destruct (Honx s2) as (R & V & D & L).
    cbn zeta. unfold named. rewrite R, V, D, L. repeat split. by exists addr.
  - cbn zeta. repeat split. exists addr.
    cbn [setitem snd with_domain domain]. by rewrite lookup_insert_ne.
  - cbn zeta. repeat split. by exists addr.
Qed.

Lemma set_dns_ns_flags b :
  flags_only (set_dns_ns b)
    (λ l, {| nxdomain := nxdomain l; dns_ns := Some b; dns_a := dns_a l;
             dns_aaaa := dns_aaaa l; dns_mx := dns_mx l |}).
Proof. done. Qed.
Lemma set_dns_a_flags b :
  flags_only (set_dns_a b)
    (λ l, {| nxdomain := nxdomain l; dns_ns := dns_ns l; dns_a := Some b;
             dns_aaaa := dns_aaaa l; dns_mx := dns_mx l |}).
Proof. done. Qed.
Lemma set_dns_aaaa_flags b :
  flags_only (set_dns_aaaa b)
    (λ l, {| nxdomain := nxdomain l; dns_ns := dns_ns l; dns_a := dns_a l;
             dns_aaaa := Some b; dns_mx := dns_mx l |}).
Proof. done. Qed.
Lemma set_dns_mx_flags b :
  flags_only (set_dns_mx b)
    (λ l, {| nxdomain := nxdomain l; dns_ns := dns_ns l; dns_a := dns_a l;
             dns_aaaa := dns_aaaa l; dns_mx := Some b |}).
Proof. done. Qed.
Lemma set_nxdomain_flags b :
  flags_only (set_nxdomain b)
    (λ l, {| nxdomain := Some b; dns_ns := dns_ns l; dns_a := dns_a l;
             dns_aaaa := dns_aaaa l; dns_mx := dns_mx l |}).
Proof. done. Qed.
Lemma ret_flags : flags_only (ret tt) id.
Proof. done. Qed.

Lemma bind_assoc {X Y Z} (m : M X) (k : X → M Y) (K : Y → M Z) s :
  bind (bind m k) K s = bind m (λ x, bind (k x) K) s.
Proof. unfold bind. by destruct (m s) as [[x|e] s']. Qed.

Lemma local_bind {Y} (f : locals → option bool) (k : bool → M Y) s b :
  f (vars s) = Some b → bind (local f) k s = k b s.
Proof. intros Hf. unfold bind. by rewrite (local_run f s b). Qed.

(** The run of the resolver branch, spelled out. *)
Lemma resolve_extdns_run (p : probes) (s : state) (name : list N) :
  named s name →
  let r := resolve_extdns p s in
  r.1 = Ok tt ∧ named r.2 name
  ∧ log r.2 = log s ++
      Query NS name ::
      (if is_nxdomain (q_ns p) then []
       else Query A name :: Query AAAA name ::
            (if answered (q_ns p) then [Query MX name] else []))
  ∧ nxdomain (vars r.2) = Some (is_nxdomain (q_ns p))
  ∧ dns_ns (vars r.2) = Some (answered (q_ns p))
  ∧ dns_a (vars r.2) = Some (negb (is_nxdomain (q_ns p)) && answered (q_a p))
  ∧ dns_aaaa (vars r.2) = Some (negb (is_nxdomain (q_ns p)) && answered (q_aaaa p))
  ∧ dns_mx (vars r.2) = Some (answered (q_ns p) && answered (q_mx p)).
Proof.
  intros Hname. unfold resolve_extdns.
  do 5 (rewrite (bind_run _ _ _ tt) by done).
  set (s0 := (set_dns_mx false _).2).
  assert (Hn0 : named s0 name) by exact Hname.
  assert (L0 : log s0 = log s) by done.
  assert (V0 : vars s0 = {| nxdomain := Some false; dns_ns := Some false;
                            dns_a := Some false; dns_aaaa := Some false;
                            dns_mx := Some false |}) by done.
  clearbody s0.
  (* NS *)
  destruct (query_run NS "dns-ns" (q_ns p) set_dns_ns _ (set_nxdomain true) _ s0 name
              set_dns_ns_flags (set_nxdomain_flags true) ltac:(done) Hn0)
    as (R1 & N1 & L1 & V1).
  rewrite (bind_run _ _ _ tt R1).
  set (s1 := (query NS _ _ _ _ s0).2) in *. clearbody s1.
  rewrite V0 in V1. rewrite L0 in L1. clear R1.
  rewrite bind_assoc.
  destruct (is_nxdomain (q_ns p)) eqn:Enx.
  { assert (Ens : q_ns p = NXDOMAIN) by (by destruct (q_ns p)).
    rewrite Ens in *.
    rewrite (local_bind _ _ _ true) by (by rewrite V1). cbn [negb when].
    rewrite (bind_run _ _ _ tt) by done. cbn [ret snd].
    rewrite (local_bind _ _ _ true) by (by rewrite V1). cbn [negb ret fst snd].
    rewrite V1. done. }
  assert (Hnx1 : nxdomain (vars s1) = Some false)
    by (rewrite V1; by destruct (q_ns p)).
  rewrite (local_bind _ _ _ false) by done. cbn [negb when].
  (* A, AAAA *)
  rewrite bind_assoc.
  destruct (query_run A "dns-a" (q_a p) set_dns_a _ (ret tt) _ s1 name
              set_dns_a_flags ret_flags ltac:(done) N1) as (R2 & N2 & L2 & V2).
  rewrite (bind_run _ _ _ tt R2).
  set (s2 := (query A _ _ _ _ s1).2) in *. clearbody s2. clear R2.
  destruct (query_run AAAA "dns-aaaa" (q_aaaa p) set_dns_aaaa _ (ret tt) _ s2 name
              set_dns_aaaa_flags ret_flags ltac:(done) N2) as (R3 & N3 & L3 & V3).
  rewrite (bind_run _ _ _ tt R3).
  set (s3 := (query AAAA _ _ _ _ s2).2) in *. clearbody s3. clear R3.
  assert (V3' : vars s3
    = {| nxdomain := Some false; dns_ns := Some (answered (q_ns p));
         dns_a := Some (answered (q_a p)); dns_aaaa := Some (answered (q_aaaa p));
         dns_mx := Some false |}).
  { rewrite V3, V2, V1.
    destruct (q_ns p); try done; destruct (q_a p); destruct (q_aaaa p); done. }
  rewrite L2, L1 in L3. rewrite <- !app_assoc in L3. simpl in L3.
  rewrite (local_bind _ _ _ false) by (by rewrite V3'). cbn [negb].
  rewrite (local_bind _ _ _ (answered (q_ns p))) by (by rewrite V3').
  destruct (answered (q_ns p)) eqn:Eans; cbn [when ret fst snd].
  - (* MX *)
    destruct (query_run MX "dns-mx" (q_mx p) set_dns_mx _ (ret tt) _ s3 name
                set_dns_mx_flags ret_flags ltac:(done) N3) as (R4 & N4 & L4 & V4).
    set (s4 := (query MX _ _ _ _ s3).2) in *. clearbody s4.
    rewrite L3 in L4. rewrite <- !app_assoc in L4. simpl in L4.
    rewrite V4, V3'. repeat split; try done.
    all: by destruct (q_mx p).
  - rewrite V3'. done.
Qed.

#[local] Set Warnings "-clear-no-such-hyp".

(** C5.  For a candidate whose record holds its name, the resolver
    branch ends without an exception and issues, after the NS query, the A
    and the AAAA query whenever [nxdomain] stayed false, whether or not
    the NS query was answered, then the MX query exactly when the NS
    query was answered (so [dns_ns] is true and [nxdomain] false); when
    the NS query meets [NXDOMAIN] it is the only query. *)
Theorem dns_query_order (p : probes) (s : state) (name : list N) :
  named s name →
  let r := resolve_extdns p s in
  let nx := nxdomain (vars r.2) in
  let ns_ok := dns_ns (vars r.2) in
  r.1 = Ok tt
  ∧ ∃ new, log r.2 = log s ++ new
    ∧ (nx = Some true ↔ q_ns p = NXDOMAIN)
    ∧ (nx = Some false ↔ q_ns p ≠ NXDOMAIN)
    ∧ (ns_ok = Some true ↔ ∃ records, q_ns p = Answer records)
    ∧ (Query MX name ∈ new ↔ ns_ok = Some true ∧ nx = Some false)
    ∧ (nx = Some false →
       ∃ rest, new = Query NS name :: Query A name :: Query AAAA name :: rest)
    ∧ (nx = Some true → new = [Query NS name]).
Proof.
  intros Hname r nx ns_ok.
  destruct (resolve_extdns_run p s name Hname)
    as (R & _ & L & Vnx & Vns & _ & _ & _).
  fold r in R, L, Vnx, Vns. subst nx ns_ok. rewrite Vnx, Vns.
  split; [done|]. eexists. split; [exact L|].
  destruct (q_ns p) as [records| | |]; cbn [is_nxdomain answered].
  all: rewrite ?elem_of_cons, ?elem_of_nil; naive_solver.
Qed.

End resolver.

(** The theorem for a queued [example.com] whose NS query is answered. *)
Lemma dns_query_order_when_ns_answered :
  let s := DomainThread.with_domain (λ _, job "Original*" 1 (u "example.com"))
             (DomainThread.fresh 3) in
  let name := u "example.com" in
  let r := DomainThread.resolve_extdns open_relay s in
  let nx := DomainThread.nxdomain (DomainThread.vars r.2) in
  let ns_ok := DomainThread.dns_ns (DomainThread.vars r.2) in
  r.1 = Ok tt
  ∧ ∃ new, DomainThread.log r.2 = DomainThread.log s ++ new
    ∧ (nx = Some true ↔ DomainThread.q_ns open_relay = DomainThread.NXDOMAIN)
    ∧ (nx = Some false ↔ DomainThread.q_ns open_relay ≠ DomainThread.NXDOMAIN)
    ∧ (ns_ok = Some true
       ↔ ∃ records, DomainThread.q_ns open_relay = DomainThread.Answer records)
    ∧ (DomainThread.Query DomainThread.MX name ∈ new
       ↔ ns_ok = Some true ∧ nx = Some false)
    ∧ (nx = Some false →
       ∃ rest, new = DomainThread.Query DomainThread.NS name
                     :: DomainThread.Query DomainThread.A name
                     :: DomainThread.Query DomainThread.AAAA name :: rest)
    ∧ (nx = Some true → new = [DomainThread.Query DomainThread.NS name]).
Proof.
  apply (dns_query_order open_relay
           (DomainThread.with_domain (λ _, job "Original*" 1 (u "example.com"))
              (DomainThread.fresh 3))
           (u "example.com")).
  exists 1. vm_compute. reflexivity.
Defined.

(** *** Runs that leave the loop or probe the original *)

Section runs.
Context `{PyRuntime}.
Import DomainThread.

(** C1 at two failing inputs.  With the resolver and [--banners], a name
    that has an AAAA record and no A record: the banner block reads
    [domain["dns-a"]], which was never stored, and [KeyError] leaves
    [run].  Without the resolver and with [--mxcheck]: [dns_mx] was never
    bound, and [UnboundLocalError] leaves [run].  In both runs the
    candidate is not marked done. *)
Theorem run_lets_exceptions_out :
  let banners_run :=
    run (worker true true false)
      [(job "Addition" 1 (u "examplea.com"), only_aaaa)] (fresh 3) in
  let mxcheck_run :=
    run (worker false false true)
      [(job "Addition" 1 (u "examplea.com"), one_ipv4)] (fresh 3) in
  (banners_run.1 = Raise KeyError
   ∧ domain banners_run.2 !! "dns-a" = None
   ∧ domain banners_run.2 !! "dns-aaaa" = Some (VList [u "2001:db8::1"])
   ∧ finished banners_run.2 = [])
  ∧ (mxcheck_run.1 = Raise UnboundLocalError
     ∧ dns_mx (vars mxcheck_run.2) = None
     ∧ finished mxcheck_run.2 = []).
Proof. repeat split; vm_compute; reflexivity. Qed.

End runs.

(** C6 at the failing input: the queued record is the original
    [example.com], and it even holds the very object of [domain_orig].
    The loop body first stores a new [str] under [domain-name], so
    [is not] compares two objects and holds: the relay probe is sent for
    the original domain and [mx-spy] is set on its record. *)
Theorem mxcheck_probes_the_original_domain :
  let r := DomainThread.run (H := ascii_runtime) (worker true false true)
             [(job "Original*" 0 (u "example.com"), open_relay)]
             (DomainThread.fresh 2) in
  r.1 = Ok tt
  ∧ DomainThread.log r.2
    = [DomainThread.Query DomainThread.NS (u "example.com");
       DomainThread.Query DomainThread.A (u "example.com");
       DomainThread.Query DomainThread.AAAA (u "example.com");
       DomainThread.Query DomainThread.MX (u "example.com");
       DomainThread.MxCheck (u "mail.example.com") (u "example.com")
         (u "example.com");
       DomainThread.TaskDone]
  ∧ length (DomainThread.finished r.2) = 1
  ∧ (DomainThread.finished r.2 !! 0) ≫= (λ record, record !! "fuzzer")
    = Some (DomainThread.VStr 1 (u "Original*"))
  ∧ (DomainThread.finished r.2 !! 0) ≫= (λ record, record !! "mx-spy")
    = Some (DomainThread.VBool true).
Proof. repeat split; vm_compute; reflexivity. Qed.

(** *** More on the strategies *)

Section more_strategies.
Import DomainFuzz.

Lemma lxor_mask_changes (c mask : N) : mask ∈ masks → N.lxor c mask ≠ c.
Proof.
  intros Hm E.
  assert (Hmask : mask = N.lxor c (N.lxor c mask))
    by (by rewrite <- N.lxor_assoc, N.lxor_nilpotent, N.lxor_0_l).
  rewrite E, N.lxor_nilpotent in Hmask. subst mask.
  unfold masks in Hm. rewrite !elem_of_cons, elem_of_nil in Hm. lia.
Qed.

(** X4.  [__bitsquatting] returns exactly the strings that differ from
    the registrable at one position, where the character is XORed with one
    of the masks 1, 2, 4, ..., 128 and the new byte is in [[0-9a-z-]]; a
    result never equals the registrable and has its length. *)
Theorem bitsquatting_flips_one_bit (d x : list N) :
  (x ∈ bitsquatting d ↔
   ∃ i c mask, d !! i = Some c ∧ mask ∈ masks
               ∧ dns_byte (N.lxor c mask) = true
               ∧ x = <[i := N.lxor c mask]> d)
  ∧ (x ∈ bitsquatting d → x ≠ d ∧ length x = length d).
Proof.
  assert (Hiff : x ∈ bitsquatting d ↔
   ∃ i c mask, d !! i = Some c ∧ mask ∈ masks
               ∧ dns_byte (N.lxor c mask) = true
               ∧ x = <[i := N.lxor c mask]> d).
  { unfold bitsquatting. rewrite list_elem_of_bind. split.
    - intros (i & Hx & [_ Hi]%elem_of_range).
      apply list_elem_of_bind in Hx as (j & Hx & [_ Hj]%elem_of_range).
      fold masks in Hx, Hj.
      destruct (in_range 48 57 _ || in_range 97 122 _ || _) eqn:Eb;
        [|by apply elem_of_nil in Hx].
      apply list_elem_of_singleton in Hx.
      exists i, (d !!! i), (masks !!! j).
      split; [by apply list_lookup_lookup_total_lt|].
      split; [by apply list_elem_of_lookup_total_2|].
      split; [done|].
      rewrite Hx, insert_take_drop by lia.
      by replace (i + 1) with (S i) by lia.
    - intros (i & c & mask & Hi & Hm & Hb & ->).
      exists i. split; [|apply elem_of_range; split; [lia|by eapply lookup_lt_Some]].
      apply list_elem_of_lookup in Hm as [j Hj].
      apply list_elem_of_bind. exists j. fold masks.
      split; [|apply elem_of_range; split; [lia|by eapply lookup_lt_Some]].
      rewrite (list_lookup_total_correct _ _ _ Hi), (list_lookup_total_correct _ _ _ Hj).
      unfold dns_byte in Hb. rewrite Hb. apply list_elem_of_singleton.
      rewrite insert_take_drop by (by eapply lookup_lt_Some).
      by replace (i + 1) with (S i) by lia. }
  split; [done|].
  intros (i & c & mask & Hi & Hm & _ & ->)%Hiff.
  split; [|by rewrite length_insert].
  intros E. apply (f_equal (λ l, l !! i)) in E.
  rewrite list_lookup_insert_eq in E by (by eapply lookup_lt_Some).
  rewrite Hi in E. injection E as E. by apply lxor_mask_changes in E.
Qed.

Section strategies.
Context `{PyRuntime}.

Lemma set_to_list_nil : set_to_list [] = [].
Proof.
  destruct (set_to_list []) as [|x l] eqn:E; [done|].
  assert (Hx : x ∈ set_to_list []) by (rewrite E; by left).
  apply (proj1 (set_to_list_elem _ _)) in Hx. by apply elem_of_nil in Hx.
Qed.

(** X5.  On a registrable of at most one character the window loops of
    Homoglyph, Hyphenation, Insertion, Subdomain and Transposition are
    empty: each returns the empty list. *)
Theorem short_registrable_yields_nothing (d : list N) :
  length d ≤ 1 →
  homoglyph d = [] ∧ hyphenation d = [] ∧ insertion d = []
  ∧ subdomain_ d = [] ∧ transposition d = [].
Proof.
  intros Hd. destruct d as [|c [|c' d]]; [| |simpl in Hd; lia].
  all: unfold homoglyph, insertion; cbn; rewrite ?set_to_list_nil; done.
Qed.

(** A string around two neighbours. *)
Lemma pair_decomposition (s : list N) (i : nat) :
  i + 1 < length s →
  s = take i s ++ [s !!! i] ++ [s !!! (i + 1)] ++ drop (i + 2) s.
Proof.
  intros Hi.
  rewrite <- (take_drop_middle s i (s !!! i)) at 1
    by (apply list_lookup_lookup_total_lt; lia).
  f_equal. simpl. f_equal.
  rewrite <- (take_drop_middle (drop (S i) s) 0 (s !!! (i + 1))).
  - simpl. f_equal. rewrite drop_drop. f_equal. lia.
  - rewrite lookup_drop. replace (S i + 0) with (i + 1) by lia.
    apply list_lookup_lookup_total_lt. lia.
Qed.

(** X6.  A result of [__transposition] is never the registrable itself
    and is a rearrangement of its characters. *)
Theorem transposition_never_emits_the_input (s x : list N) :
  x ∈ transposition s → x ≠ s ∧ x ≡ₚ s.
Proof.
  unfold transposition. intros (i & Hx & [_ Hi]%elem_of_range)%list_elem_of_bind.
  destruct (N.eqb_spec (s !!! (i + 1)) (s !!! i)) as [E|E]; simpl in Hx;
    [by apply elem_of_nil in Hx|].
  apply list_elem_of_singleton in Hx. subst x.
  assert (Hi' : i + 1 < length s) by lia.
  split.
  - intros Heq. rewrite (pair_decomposition s i Hi') in Heq at 5.
    apply app_inv_head in Heq. simpl in Heq. injection Heq as Heq _. done.
  - rewrite (pair_decomposition s i Hi') at 5.
    apply Permutation_app_head. simpl. apply perm_swap.
Qed.

End strategies.

Lemma collapse_runs_length (s : list N) : length (collapse_runs s) ≤ length s.
Proof.
  induction s as [|c s IH]; [done|].
  simpl. destruct s as [|c' s]; [done|].
  destruct ((c =? c')%N && negb (c =? NEWLINE)%N); simpl in *; lia.
Qed.

Lemma collapse_runs_changes (s : list N) : collapse_runs s ≠ s ↔ has_run s.
Proof.
  induction s as [|c s IH]; [split; [done|by intros (i & c & ? & _)]|].
  destruct s as [|c' s].
  { split; [done|]. intros (i & a & _ & Hi & _). by destruct i. }
  change (collapse_runs (c :: c' :: s))
    with (if (c =? c')%N && negb (c =? NEWLINE)%N
          then collapse_runs (c' :: s) else c :: collapse_runs (c' :: s)).
  destruct (N.eqb_spec c c') as [->|Hcc]; cbn [andb negb].
  - destruct (N.eqb_spec c' NEWLINE) as [->|Hnl]; cbn [andb negb].
    + split.
      * intros Hne. assert (Hne' : collapse_runs (NEWLINE :: s) ≠ NEWLINE :: s)
          by (intros E; apply Hne; by rewrite E).
        apply IH in Hne' as (i & a & H1 & H2 & H3). by exists (S i), a.
      * intros (i & a & H1 & H2 & H3). destruct i as [|i].
        { simpl in *. congruence. }
        assert (Hr : has_run (NEWLINE :: s)) by (by exists i, a).
        apply IH in Hr. intros [= E]. done.
    + split; [intros _; by exists 0, c'|].
      intros _ E. pose proof (collapse_runs_length (c' :: s)) as Hl.
      rewrite E in Hl. simpl in Hl. lia.
  - split.
    + intros Hne. assert (Hne' : collapse_runs (c' :: s) ≠ c' :: s)
        by (intros E; apply Hne; by rewrite E).
      apply IH in Hne' as (i & a & H1 & H2 & H3). by exists (S i), a.
    + intros (i & a & H1 & H2 & H3). destruct i as [|i].
      { simpl in *. congruence. }
      assert (Hr : has_run (c' :: s)) by (by exists i, a).
      apply IH in Hr. intros [= E]. done.
Qed.

Section omission.
Context `{PyRuntime}.

(** X7.  [__omission] returns the registrable with one character
    deleted, for each position, and the collapsed-runs form when the
    registrable holds a run; the collapsed-runs form is among the results
    exactly when the registrable holds a run of two or more equal
    characters (other than newlines). *)
Theorem omission_results (d x : list N) :
  (x ∈ omission d ↔
     (∃ i, i < length d ∧ x = take i d ++ drop (S i) d)
     ∨ (x = collapse_runs d ∧ has_run d))
  ∧ (collapse_runs d ∈ omission d ↔ has_run d).
Proof.
  assert (Hdel : ∀ y, y ∈ (i ← range 0 (length d); [take i d ++ drop (i + 1) d])
                      ↔ ∃ i, i < length d ∧ y = take i d ++ drop (S i) d).
  { intros y. rewrite list_elem_of_bind. split.
    - intros (i & ->%list_elem_of_singleton & [_ Hi]%elem_of_range).
      exists i. split; [lia|]. by replace (i + 1) with (S i) by lia.
    - intros (i & Hi & ->). exists i. split; [|apply elem_of_range; lia].
      apply list_elem_of_singleton. by replace (i + 1) with (S i) by lia. }
  assert (Hiff : ∀ y, y ∈ omission d ↔
     (∃ i, i < length d ∧ y = take i d ++ drop (S i) d)
     ∨ (y = collapse_runs d ∧ has_run d)).
  { intros y. unfold omission. rewrite set_to_list_elem.
    destruct (bool_decide (collapse_runs d ∉ _)) eqn:Ein; simpl.
    - apply bool_decide_eq_true in Ein.
      destruct (bool_decide (collapse_runs d = d)) eqn:Eeq; simpl.
      + apply bool_decide_eq_true in Eeq. rewrite Hdel.
        split; [by left|]. intros [?|[_ Hr]]; [done|].
        by apply collapse_runs_changes in Hr.
      + apply bool_decide_eq_false in Eeq.
        rewrite elem_of_app, list_elem_of_singleton, Hdel.
        split; (intros [?|?]; [by left|right]).
        * split; [done|]. by apply collapse_runs_changes.
        * tauto.
    - apply bool_decide_eq_false in Ein. apply dec_stable in Ein.
      rewrite Hdel. split; [by left|]. intros [?|[-> _]]; [done|].
      by apply Hdel. }
  split; [apply Hiff|].
  rewrite Hiff. split.
  - intros [(i & Hi & E)|[_ ?]]; [|done].
    apply collapse_runs_changes. intros E'. rewrite E' in E.
    apply (f_equal length) in E.
    rewrite length_app, length_take, length_drop in E. lia.
  - intros Hr. by right.
Qed.

End omission.

Section lengths.
Context `{PyRuntime}.

Ltac len := rewrite ?length_app, ?length_take, ?length_drop; simpl; lia.

(** X8.  Addition, Hyphenation, Insertion, Repetition and Subdomain
    return strings one character longer than the registrable;
    Bitsquatting, Replacement, Transposition and Vowel-swap return strings
    of its length. *)
Theorem strategy_results_have_the_edit_length (d x : list N) :
  (x ∈ addition d ∨ x ∈ hyphenation d ∨ x ∈ insertion d ∨ x ∈ repetition d
   ∨ x ∈ subdomain_ d → length x = length d + 1)
  ∧ (x ∈ bitsquatting d ∨ x ∈ replacement d ∨ x ∈ transposition d
     ∨ x ∈ vowel_swap d → length x = length d).
Proof.
  split.
  - intros [Hx|[Hx|[Hx|[Hx|Hx]]]].
    + apply list_elem_of_bind in Hx as (i & ->%list_elem_of_singleton & _). len.
    + apply list_elem_of_bind in Hx
        as (i & ->%list_elem_of_singleton & [? ?]%elem_of_range). len.
    + apply set_to_list_elem, list_elem_of_bind in Hx
        as (i & Hx & [? ?]%elem_of_range).
      apply list_elem_of_bind in Hx as (keys & Hx & _).
      destruct (dict_get keys _); [|by apply elem_of_nil in Hx].
      apply list_elem_of_bind in Hx as (c & Hx & _).
      rewrite !elem_of_cons, elem_of_nil in Hx.
      destruct Hx as [->|[->|[]]]; len.
    + apply set_to_list_elem, list_elem_of_bind in Hx
        as (i & Hx & [? ?]%elem_of_range).
      destruct (isalpha _); [|by apply elem_of_nil in Hx].
      apply list_elem_of_singleton in Hx as ->. len.
    + apply list_elem_of_bind in Hx as (i & Hx & [? ?]%elem_of_range).
      destruct (_ && _); [|by apply elem_of_nil in Hx].
      apply list_elem_of_singleton in Hx as ->. len.
  - intros [Hx|[Hx|[Hx|Hx]]].
    + apply list_elem_of_bind in Hx as (i & Hx & [? ?]%elem_of_range).
      apply list_elem_of_bind in Hx as (j & Hx & _). cbn zeta in Hx.
      destruct (_ || _); [|by apply elem_of_nil in Hx].
      apply list_elem_of_singleton in Hx as ->. len.
    + apply set_to_list_elem, list_elem_of_bind in Hx
        as (i & Hx & [? ?]%elem_of_range).
      apply list_elem_of_bind in Hx as (keys & Hx & _).
      destruct (dict_get keys _); [|by apply elem_of_nil in Hx].
      apply list_elem_of_bind in Hx as (c & ->%list_elem_of_singleton & _). len.
    + apply list_elem_of_bind in Hx as (i & Hx & [? ?]%elem_of_range).
      destruct (negb _); [|by apply elem_of_nil in Hx].
      apply list_elem_of_singleton in Hx as ->. len.
    + apply set_to_list_elem, list_elem_of_bind in Hx
        as (i & Hx & [? ?]%elem_of_range).
      apply list_elem_of_bind in Hx as (v & Hx & _).
      destruct (bool_decide _); [|by apply elem_of_nil in Hx].
      apply list_elem_of_singleton in Hx as ->. len.
Qed.

Lemma homoglyph_pass_single (d : list N) (i : nat) (c g : N) gs :
  d !! i = Some c → 2 ≤ length d →
  dict_get glyphs c = Some gs → [g] ∈ gs →
  <[i := g]> d ∈ homoglyph_pass d.
Proof.
  intros Hi Hlen Hgs Hg. pose proof (lookup_lt_Some _ _ _ Hi) as Hlt.
  unfold homoglyph_pass.
  apply list_elem_of_bind. exists 1. split; [|apply elem_of_range; lia].
  apply list_elem_of_bind. exists i. split; [|apply elem_of_range; lia].
  apply list_elem_of_bind. exists 0. split; [|apply elem_of_range; lia].
  assert (Hwin : take 1 (drop i d) = [c]).
  { rewrite <- (take_drop_middle d i c Hi), drop_app_length'
      by (rewrite length_take; lia). done. }
  rewrite Hwin. change ([c] !!! 0) with c. rewrite Hgs.
  apply list_elem_of_bind. exists [g]. split; [|done].
  apply list_elem_of_singleton.
  unfold replace_char. simpl. rewrite N.eqb_refl. simpl.
  rewrite insert_take_drop by done.
  by replace (i + 1) with (S i) by lia.
Qed.

(** X9.  The second pass of [__homoglyph] can undo the first: when the
    table lists [g] for a character [c] of the registrable and [c] for
    [g] (as for g and q, b and d, c and e, i and l, m and n), a
    registrable of two or more characters is among its own Homoglyph
    results, and only the final filter removes it. *)
Theorem homoglyph_second_pass_can_undo (d : list N) (i : nat) (c g : N) gs gs' :
  d !! i = Some c → 2 ≤ length d →
  dict_get glyphs c = Some gs → [g] ∈ gs →
  dict_get glyphs g = Some gs' → [c] ∈ gs' →
  d ∈ homoglyph d.
Proof.
  intros Hi Hlen Hgs Hg Hgs' Hc. pose proof (lookup_lt_Some _ _ _ Hi) as Hlt.
  unfold homoglyph. apply set_to_list_elem, elem_of_app. right.
  apply list_elem_of_bind. exists (<[i := g]> d).
  split; [|by eapply homoglyph_pass_single].
  replace d with (<[i := c]> (<[i := g]> d)) at 1.
  - eapply homoglyph_pass_single; [|by rewrite length_insert|done..].
    by apply list_lookup_insert_eq.
  - rewrite list_insert_insert_eq. by apply list_insert_id.
Qed.

End lengths.

End more_strategies.

(** The theorem at the first letter of [google]. *)
Lemma google_is_its_own_homoglyph :
  u "google" ∈ DomainFuzz.homoglyph (H := ascii_runtime) (u "google").
Proof.
  eapply (homoglyph_second_pass_can_undo (H := ascii_runtime) (u "google") 0
            103%N 113%N).
  - vm_compute. reflexivity.
  - vm_compute. lia.
  - vm_compute. reflexivity.
  - apply (bool_decide_unpack _). vm_compute. exact I.
  - vm_compute. reflexivity.
  - apply (bool_decide_unpack _). vm_compute. exact I.
Defined.

(** The theorem at [ab] and its result [cb]. *)
Lemma bitsquatting_of_ab_differs :
  u "cb" ≠ u "ab" ∧ length (u "cb") = length (u "ab").
Proof.
  apply (proj2 (bitsquatting_flips_one_bit (u "ab") (u "cb"))).
  apply (bool_decide_unpack _). vm_compute. exact I.
Defined.

(** The theorem at the registrable [a]. *)
Lemma one_letter_registrable_yields_nothing :
  DomainFuzz.homoglyph (H := ascii_runtime) (u "a") = []
  ∧ DomainFuzz.hyphenation (u "a") = []
  ∧ DomainFuzz.insertion (H := ascii_runtime) (u "a") = []
  ∧ DomainFuzz.subdomain_ (u "a") = [] ∧ DomainFuzz.transposition (u "a") = [].
Proof.
  apply (short_registrable_yields_nothing (H := ascii_runtime) (u "a")).
  vm_compute. lia.
Defined.

(** The theorem at [ab] and its result [ba]. *)
Lemma transposition_of_ab_differs : u "ba" ≠ u "ab" ∧ u "ba" ≡ₚ u "ab".
Proof.
  apply (transposition_never_emits_the_input (u "ab") (u "ba")).
  apply (bool_decide_unpack _). vm_compute. exact I.
Defined.

(** The theorem at [ab] and its hyphenation [a-b]. *)
Lemma hyphenation_of_ab_is_longer : length (u "a-b") = length (u "ab") + 1.
Proof.
  apply (proj1 (strategy_results_have_the_edit_length (H := ascii_runtime)
                  (u "ab") (u "a-b"))).
  right. left. apply (bool_decide_unpack _). vm_compute. exact I.
Defined.

(** *** More on the filter *)

Section filter_more.
Context `{PyRuntime}.
Import DomainFuzz.

(** The loop on a list of valid, pairwise distinct names none of which
    was seen: every entry is kept. *)
Lemma filter_foldl_fixed (l : list entry) (st : gset (list N) * list entry) :
  NoDup (domain_name <$> l) →
  Forall (λ e, validate_domain (domain_name e) = true) l →
  (∀ e, e ∈ l → domain_name e ∉ st.1) →
  (foldl filter_step st l).2 = st.2 ++ l.
Proof.
  revert st. induction l as [|d l IH]; intros st Hnd Hv Hfresh.
  { simpl. by rewrite app_nil_r. }
  rewrite fmap_cons in Hnd. apply NoDup_cons in Hnd as [Hd Hnd].
  apply Forall_cons in Hv as [Hvd Hv].
  simpl. unfold filter_step at 2. rewrite Hvd.
  rewrite bool_decide_eq_true_2 by (apply Hfresh; by left). simpl.
  rewrite IH; simpl; [by rewrite <- app_assoc|done|done|].
  intros e He. rewrite elem_of_union, elem_of_singleton.
  intros [Heq|Hin].
  - apply Hd. rewrite <- Heq. apply list_elem_of_fmap. by exists e.
  - apply (Hfresh e); [by right|done].
Qed.

(** X10.  [__filter_domains] is idempotent: run on its own result it
    drops nothing and keeps the order. *)
Theorem filter_domains_idempotent (self : t) :
  filter_domains (filter_domains self) = filter_domains self.
Proof.
  unfold filter_domains at 1 3. unfold set_domains. simpl. f_equal.
  destruct (filter_inv_foldl (domains self)) as [_ Hnd Hv _ _ _].
  rewrite filter_foldl_fixed; [done|done|done|].
  intros e _. simpl. apply not_elem_of_empty.
Qed.

(** X11.  [__filter_domains] keeps the entries in their order, and an
    entry is kept exactly when its name is valid and no earlier entry of
    the list has that name. *)
Theorem filter_domains_keeps_first_valid (self : t) :
  sublist (domains (filter_domains self)) (domains self)
  ∧ ∀ e, e ∈ domains (filter_domains self) ↔
      validate_domain (domain_name e) = true
      ∧ ∃ pre post, domains self = pre ++ e :: post
                    ∧ domain_name e ∉ domain_name <$> pre.
Proof.
  unfold filter_domains. simpl.
  destruct (filter_inv_foldl (domains self)) as [_ _ Hv Hsub Hfirst _].
  split; [done|]. intros e. split.
  - intros He. split; [|by apply Hfirst].
    rewrite Forall_forall in Hv. by apply Hv.
  - intros (Hve & pre & post & Hds & Hpre). by eapply filter_keeps_first.
Qed.

End filter_more.

(** *** The expanders *)

Section dictionaries.
Context `{PyRuntime}.

(** The loop of [load_dict] keeps the list free of repetitions and adds
    the alphabetic stripped lines. *)
Lemma load_dict_loop (lines d0 : list (list N)) :
  let step := λ (dictionary : list (list N)) line,
                let word := strip_char NEWLINE line in
                if DomainDict.str_isalpha word && bool_decide (word ∉ dictionary)
                then dictionary ++ [word] else dictionary in
  NoDup d0 →
  NoDup (foldl step d0 lines)
  ∧ ∀ w, w ∈ foldl step d0 lines ↔
         w ∈ d0 ∨ DomainDict.str_isalpha w = true ∧ w ∈ strip_char NEWLINE <$> lines.
Proof.
  intros step. revert d0. induction lines as [|line lines IH]; intros d0 Hnd.
  { simpl. split; [done|]. intros w. rewrite elem_of_nil. tauto. }
  simpl. unfold step at 2 4. cbn zeta.
  destruct (DomainDict.str_isalpha (strip_char NEWLINE line)) eqn:Ea; simpl;
    [destruct (bool_decide _) eqn:Ed|].
  - apply bool_decide_eq_true in Ed.
    destruct (IH (d0 ++ [strip_char NEWLINE line])) as [Hnd' Hin].
    { apply NoDup_app. split; [done|]. split; [|apply NoDup_singleton].
      intros x Hx ->%list_elem_of_singleton. done. }
    split; [done|]. intros w. rewrite Hin, elem_of_app, list_elem_of_singleton, elem_of_cons.
    split; [|intros [?|[? [-> |?]]]; tauto].
    intros [[?| ->]|[? ?]]; tauto.
  - apply bool_decide_eq_false in Ed. apply dec_stable in Ed.
    destruct (IH d0 Hnd) as [Hnd' Hin]. split; [done|].
    intros w. rewrite Hin, elem_of_cons.
    split; [tauto|]. intros [?|[? [-> |?]]]; tauto.
  - destruct (IH d0 Hnd) as [Hnd' Hin]. split; [done|].
    intros w. rewrite Hin, elem_of_cons.
    split; [tauto|]. intros [?|[Hw [-> |?]]]; [tauto| |tauto]. congruence.
Qed.

(** X12.  [load_dict] on a dictionary free of repetitions leaves it free
    of repetitions, and its words are the old ones and the lines of the
    file that, stripped of newlines, are alphabetic. *)
Theorem load_dict_words (self : DomainDict.t) (lines : list (list N)) :
  NoDup (DomainDict.dictionary self) →
  NoDup (DomainDict.dictionary (DomainDict.load_dict self (Some lines)))
  ∧ ∀ w, w ∈ DomainDict.dictionary (DomainDict.load_dict self (Some lines)) ↔
         w ∈ DomainDict.dictionary self
         ∨ DomainDict.str_isalpha w = true ∧ w ∈ strip_char NEWLINE <$> lines.
Proof.
  intros Hnd. unfold DomainDict.load_dict. cbn [DomainDict.dictionary].
  exact (load_dict_loop lines _ Hnd).
Qed.

Lemma length_join (sep : list N) (parts : list (list N)) :
  length (join sep parts)
  = sum_list (length <$> parts) + length sep * (length parts - 1).
Proof.
  induction parts as [|p [|q parts] IH]; [simpl; lia|simpl; lia|].
  rewrite join_cons_cons, !length_app, IH. simpl. lia.
Qed.

Lemma list_remove_spec (x : list N) (l : list (list N)) :
  NoDup l → ∀ y, y ∈ TldDict.list_remove x l ↔ y ∈ l ∧ y ≠ x.
Proof.
  induction l as [|z l IH]; intros Hnd y; simpl.
  { rewrite elem_of_nil. tauto. }
  apply NoDup_cons in Hnd as [Hz Hnd].
  destruct (bool_decide_reflect (z = x)) as [-> |Hzx].
  - rewrite elem_of_cons. split; [|intros [[-> |?] ?]; tauto].
    intros Hy. split; [tauto|]. by intros ->.
  - rewrite !elem_of_cons, IH by done. split; [intros [-> |?]; tauto|tauto].
Qed.

(** The assembled name determines its last part. *)
Lemma assemble_tld_inj (sub dom x y : list N) :
  join (u ".") (filter_None [sub; dom; x]) = join (u ".") (filter_None [sub; dom; y]) →
  x = y.
Proof.
  unfold filter_None.
  replace [sub; dom; x] with ([sub; dom] ++ [x]) by done.
  replace [sub; dom; y] with ([sub; dom] ++ [y]) by done.
  rewrite !filter_app. generalize (filter (λ p, p ≠ []) [sub; dom]). intros P.
  assert (Hsnoc : ∀ z, z ≠ [] → length (join (u ".") (P ++ [z])) > length (join (u ".") P)
                       ∧ (P = [] → join (u ".") (P ++ [z]) = z)
                       ∧ (P ≠ [] → join (u ".") (P ++ [z]) = join (u ".") P ++ u "." ++ z)).
  { intros z Hz. split; [|split].
    - rewrite !length_join, fmap_app, sum_list_with_app, length_app. simpl.
      destruct z; [done|]. simpl. lia.
    - by intros ->.
    - intros HP. clear -HP. induction P as [|p [|q P] IH]; [done|done|].
      change ((p :: q :: P) ++ [z]) with (p :: q :: (P ++ [z])).
      rewrite !join_cons_cons.
      change (q :: (P ++ [z])) with ((q :: P) ++ [z]). rewrite IH by done.
      by rewrite <- !app_assoc. }
  destruct x as [|a x], y as [|b y]; [done| | |].
  - rewrite (filter_cons_False _ []), filter_cons_True, !filter_nil, app_nil_r
      by (done || (intros Hn; by apply Hn)).
    intros E. destruct (Hsnoc (b :: y)) as [Hl _]; [done|]. rewrite <- E in Hl. lia.
  - rewrite (filter_cons_False _ []), filter_cons_True, !filter_nil, app_nil_r
      by (done || (intros Hn; by apply Hn)).
    intros E. destruct (Hsnoc (a :: x)) as [Hl _]; [done|]. rewrite E in Hl. lia.
  - rewrite !filter_cons_True, !filter_nil by done.
    destruct (Hsnoc (a :: x)) as (_ & H1 & H2); [done|].
    destruct (Hsnoc (b :: y)) as (_ & H3 & H4); [done|].
    destruct P as [|p P].
    + by rewrite H1, H3.
    + rewrite H2, H4 by done. intros E. by do 2 apply app_inv_head in E.
Qed.

(** X13.  On a dictionary free of repetitions [TldDict.generate] appends
    only [TLD-swap] entries, each built from a word of the dictionary
    other than the object's own TLD; none of them is named like the
    input. *)
Theorem tld_swap_never_keeps_the_tld (self : DomainDict.t) (e : DomainFuzz.entry) :
  NoDup (DomainDict.dictionary self) →
  e ∈ DomainFuzz.domains (DomainDict.base (TldDict.generate self)) →
  e ∈ DomainFuzz.domains (DomainDict.base self)
  ∨ DomainFuzz.fuzzer e = "TLD-swap"
    ∧ DomainFuzz.domain_name e ≠ DomainFuzz.domain_name (DomainFuzz.original (DomainDict.base self))
    ∧ ∃ tl, tl ∈ DomainDict.dictionary self
            ∧ tl ≠ DomainFuzz.tld (DomainDict.base self)
            ∧ DomainFuzz.domain_name e
              = join (u ".") (filter_None [DomainFuzz.subdomain (DomainDict.base self);
                                          DomainFuzz.domain (DomainDict.base self); tl]).
Proof.
  intros Hnd. unfold TldDict.generate. cbn zeta. simpl.
  intros [He|(tl & -> & Htl)%list_elem_of_fmap]%elem_of_app; [by left|].
  right. simpl.
  assert (Htl' : tl ∈ DomainDict.dictionary self
                 ∧ tl ≠ DomainFuzz.tld (DomainDict.base self)).
  { destruct (bool_decide_reflect
                (DomainFuzz.tld (DomainDict.base self) ∈ DomainDict.dictionary self))
      as [Hin|Hnin].
    - by apply list_remove_spec in Htl.
    - split; [done|]. by intros ->. }
  destruct Htl' as [Hin Hne].
  split; [done|]. split; [|by exists tl].
  unfold DomainFuzz.assemble. by intros E%assemble_tld_inj.
Qed.

(** A longer registrable gives a longer assembled name. *)
Lemma assemble_longer (sub dom tl m : list N) :
  m ≠ [] → length dom < length m →
  length (join (u ".") (filter_None [sub; dom; tl]))
  < length (join (u ".") (filter_None [sub; m; tl])).
Proof.
  intros Hm Hlen. unfold filter_None.
  destruct sub as [|a sub], dom as [|b dom], tl as [|c tl], m as [|d m]; try done;
    repeat (rewrite filter_cons_True by done
            || rewrite (filter_cons_False _ []) by (intros Hn; by apply Hn));
    rewrite ?filter_nil; rewrite !length_join; simpl in *; lia.
Qed.

(** X14.  With no empty word in the dictionary, [DomainDict.generate]
    appends only [Dictionary] entries, each with a name longer than the
    input's. *)
Theorem dictionary_names_are_longer (self : DomainDict.t) (e : DomainFuzz.entry) :
  Forall (λ w, w ≠ []) (DomainDict.dictionary self) →
  e ∈ DomainFuzz.domains (DomainDict.base (DomainDict.generate self)) →
  e ∈ DomainFuzz.domains (DomainDict.base self)
  ∨ DomainFuzz.fuzzer e = "Dictionary"
    ∧ length (DomainFuzz.domain_name (DomainFuzz.original (DomainDict.base self)))
      < length (DomainFuzz.domain_name e).
Proof.
  intros Hw. unfold DomainDict.generate. cbn [DomainDict.base DomainFuzz.domains DomainFuzz.set_domains].
  intros [He|He]%elem_of_app; [by left|]. right.
  split; [by eapply elem_of_tagged|].
  apply list_elem_of_fmap in He as (d & -> & Hd).
  unfold DomainDict.dictionary_ in Hd.
  apply list_elem_of_bind in Hd as (word & Hd & Hword).
  rewrite Forall_forall in Hw. specialize (Hw word Hword).
  cbn [DomainFuzz.domain_name DomainFuzz.original]. unfold DomainFuzz.assemble.
  cbn [DomainFuzz.subdomain DomainFuzz.tld DomainFuzz.set_domains].
  destruct word as [|c word]; [done|].
  rewrite !elem_of_cons, elem_of_nil in Hd.
  destruct Hd as [->|[->|[->|[->|[]]]]];
    (apply assemble_longer; [|rewrite ?length_app; simpl; lia]);
    try done; by destruct (DomainFuzz.domain (DomainDict.base self)).
Qed.

End dictionaries.

(** The theorem at a file of two lines, read into a new object. *)
Lemma load_dict_words_of_a_file :
  NoDup (DomainDict.dictionary
           (DomainDict.load_dict (H := ascii_runtime)
              (DomainDict.init [] (u "ab") (u "com")) (Some [u "net"; u "x1"])))
  ∧ ∀ w, w ∈ DomainDict.dictionary
               (DomainDict.load_dict (H := ascii_runtime)
                  (DomainDict.init [] (u "ab") (u "com")) (Some [u "net"; u "x1"])) ↔
         w ∈ DomainDict.dictionary (DomainDict.init [] (u "ab") (u "com"))
         ∨ DomainDict.str_isalpha (H := ascii_runtime) w = true
           ∧ w ∈ strip_char NEWLINE <$> [u "net"; u "x1"].
Proof.
  apply (load_dict_words (H := ascii_runtime)
           (DomainDict.init [] (u "ab") (u "com")) [u "net"; u "x1"]).
  simpl. constructor.
Defined.

(** The theorem at [ab.com] and the words [net] and [com]. *)
Lemma tld_swap_of_ab_com :
  let self := DomainDict.load_dict (H := ascii_runtime)
                (DomainDict.init [] (u "ab") (u "com")) (Some [u "net"; u "com"]) in
  let e := {| DomainFuzz.fuzzer := "TLD-swap"; DomainFuzz.domain_name := u "ab.net" |} in
  e ∈ DomainFuzz.domains (DomainDict.base self)
  ∨ DomainFuzz.fuzzer e = "TLD-swap"
    ∧ DomainFuzz.domain_name e ≠ DomainFuzz.domain_name (DomainFuzz.original (DomainDict.base self))
    ∧ ∃ tl, tl ∈ DomainDict.dictionary self
            ∧ tl ≠ DomainFuzz.tld (DomainDict.base self)
            ∧ DomainFuzz.domain_name e
              = join (u ".") (filter_None [DomainFuzz.subdomain (DomainDict.base self);
                                          DomainFuzz.domain (DomainDict.base self); tl]).
Proof.
  intros self e. apply (tld_swap_never_keeps_the_tld self e).
  - apply (bool_decide_unpack _). vm_compute. exact I.
  - vm_compute. left.
Defined.

(** The theorem at [ab.com] and the first entry for the word [net]. *)
Lemma dictionary_names_of_ab_com :
  let self := DomainDict.load_dict (H := ascii_runtime)
                (DomainDict.init [] (u "ab") (u "com")) (Some [u "net"; u "com"]) in
  let e := {| DomainFuzz.fuzzer := "Dictionary"; DomainFuzz.domain_name := u "ab-net.com" |} in
  e ∈ DomainFuzz.domains (DomainDict.base self)
  ∨ DomainFuzz.fuzzer e = "Dictionary"
    ∧ length (DomainFuzz.domain_name (DomainFuzz.original (DomainDict.base self)))
      < length (DomainFuzz.domain_name e).
Proof.
  intros self e. apply (dictionary_names_are_longer self e).
  - apply (bool_decide_unpack _). vm_compute. exact I.
  - vm_compute. left.
Defined.

(** *** The worker's footprint *)

Section frame.
Context `{PyRuntime}.
Import DomainThread.
Implicit Types (self : t) (s : state).

Lemma advances_refl self s : advances self s s.
Proof.
  split; [done|done| |by left]. exists []. by rewrite app_nil_r.
Qed.

Lemma advances_trans self s1 s2 s3 :
  advances self s1 s2 → advances self s2 s3 → advances self s1 s3.
Proof.
  intros [Hf1 Hh1 (e1 & Hl1 & He1) Hd1] [Hf2 Hh2 (e2 & Hl2 & He2) Hd2].
  split.
  - congruence.
  - lia.
  - exists (e1 ++ e2). rewrite Hl2, Hl1, app_assoc. split; [done|].
    by apply Forall_app.
  - intros k. destruct (Hd2 k) as [E2|[Hk Hs]]; [|by right].
    rewrite E2. apply Hd1.
Qed.

Lemma sound_ret self {X} (x : X) : sound self (ret x).
Proof. intros s. apply advances_refl. Qed.

Lemma sound_raise self {X} e : sound self (raise (X := X) e).
Proof. intros s. apply advances_refl. Qed.

Lemma sound_bind self {X Y} (m : M X) (k : X → M Y) :
  sound self m → (∀ x, sound self (k x)) → sound self (bind m k).
Proof.
  intros Hm Hk s. unfold bind. specialize (Hm s).
  destruct (m s) as [[x|e] s']; [|done].
  eapply advances_trans; [exact Hm|apply Hk].
Qed.

Lemma sound_try_else self {X} (m : M X) (k : X → M unit) :
  sound self m → (∀ x, sound self (k x)) → sound self (try_else m k).
Proof.
  intros Hm Hk s. unfold try_else. specialize (Hm s).
  destruct (m s) as [[x|e] s']; [|done].
  eapply advances_trans; [exact Hm|apply Hk].
Qed.

Lemma sound_when self (b : bool) (m : M unit) :
  (b = true → sound self m) → sound self (when b m).
Proof. destruct b; intros Hm; [by apply Hm|apply sound_ret]. Qed.

Lemma sound_local self f : sound self (local f).
Proof. intros s. unfold local. destruct (f (vars s)); apply advances_refl. Qed.

Lemma sound_getitem self k : sound self (getitem k).
Proof. intros s. unfold getitem. destruct (domain s !! k); apply advances_refl. Qed.

Lemma sound_first_of self v : sound self (first_of v).
Proof. intros s. destruct v as [? [|]|[|]| |]; apply advances_refl. Qed.

Lemma sound_text_of self v : sound self (text_of v).
Proof. intros s. destruct v; apply advances_refl. Qed.

Lemma sound_domain_name self : sound self domain_name.
Proof. apply sound_bind; [apply sound_getitem|apply sound_text_of]. Qed.

Lemma sound_new_str self x : sound self (new_str x).
Proof.
  intros s. split; simpl; [done|lia| |by left].
  exists []. by rewrite app_nil_r.
Qed.

Lemma sound_setitem self k v : key_allowed self k = true → sound self (setitem k v).
Proof.
  intros Hk s. split; simpl; [done|done| |].
  - exists []. by rewrite app_nil_r.
  - intros k'. destruct (decide (k = k')) as [<-|Hne].
    + right. split; [done|]. rewrite lookup_insert_eq. by eexists.
    + left. by rewrite lookup_insert_ne.
Qed.

Lemma sound_emit self e : event_allowed self e = true → sound self (emit e).
Proof.
  intros He s. split; simpl; [done|done| |by left].
  exists [e]. split; [done|]. by constructor.
Qed.

Lemma sound_set_vars self (m : M unit) :
  (∀ s, ∃ f, m s = (Ok tt, with_vars f s)) → sound self m.
Proof.
  intros Hm s. destruct (Hm s) as [f ->]. split; simpl; [done|done| |by left].
  exists []. by rewrite app_nil_r.
Qed.

Lemma sound_set_nxdomain self b : sound self (set_nxdomain b).
Proof. apply sound_set_vars. intros s. by eexists. Qed.
Lemma sound_set_dns_ns self b : sound self (set_dns_ns b).
Proof. apply sound_set_vars. intros s. by eexists. Qed.
Lemma sound_set_dns_a self b : sound self (set_dns_a b).
Proof. apply sound_set_vars. intros s. by eexists. Qed.
Lemma sound_set_dns_aaaa self b : sound self (set_dns_aaaa b).
Proof. apply sound_set_vars. intros s. by eexists. Qed.
Lemma sound_set_dns_mx self b : sound self (set_dns_mx b).
Proof. apply sound_set_vars. intros s. by eexists. Qed.

Ltac key := unfold key_allowed; repeat match goal with
  | Hopt : _ = true |- _ => rewrite Hopt
  end; by vm_compute.

Ltac sound :=
  repeat first
    [ apply sound_ret | apply sound_raise | apply sound_local
    | apply sound_getitem | apply sound_first_of | apply sound_text_of
    | apply sound_domain_name | apply sound_new_str
    | apply sound_set_nxdomain | apply sound_set_dns_ns | apply sound_set_dns_a
    | apply sound_set_dns_aaaa | apply sound_set_dns_mx
    | apply sound_bind; [|intros ?]
    | apply sound_try_else; [|intros ?]
    | apply sound_when; intros ?
    | apply sound_setitem
    | apply sound_emit ].

Lemma key_allowed_always self k :
  k ∈ ["domain-name"; "dns-a"; "dns-aaaa"] → key_allowed self k = true.
Proof. intros Hk. unfold key_allowed. by rewrite bool_decide_eq_true_2. Qed.

Lemma sound_query self rd key outcome flag onx :
  option_extdns self = true → key_allowed self key = true →
  (∀ b, sound self (flag b)) → sound self onx →
  sound self (query rd key outcome flag onx).
Proof.
  intros Hext Hkey Hflag Honx. unfold query.
  apply sound_bind; [apply sound_domain_name|intros name].
  apply sound_bind; [by apply sound_emit|intros _].
  destruct outcome; sound; done.
Qed.

Ltac allowed Hopt :=
  clear -Hopt; unfold key_allowed, event_allowed;
  match type of Hopt with
  | _ ?self = true =>
      destruct self as [? ? ? ? ? [] [] [] [] [] []]; simpl in Hopt;
      try discriminate Hopt; by vm_compute
  end.

Lemma sound_resolve_extdns self p :
  option_extdns self = true → sound self (resolve_extdns p).
Proof.
  intros Hext. unfold resolve_extdns.
  assert (Hq : ∀ rd key o flag onx,
             key ∈ ["dns-ns"; "dns-a"; "dns-aaaa"; "dns-mx"] →
             (∀ b, sound self (flag b)) → sound self onx →
             sound self (query rd key o flag onx)).
  { intros rd key o flag onx Hkey. apply sound_query; [done|].
    unfold key_allowed. rewrite Hext.
    rewrite !elem_of_cons, elem_of_nil in Hkey.
    destruct Hkey as [->|[->|[->|[->|[]]]]]; by vm_compute. }
  repeat first
    [ apply sound_set_nxdomain | apply sound_set_dns_ns | apply sound_set_dns_a
    | apply sound_set_dns_aaaa | apply sound_set_dns_mx | apply sound_ret
    | apply sound_local
    | apply Hq; [apply (bool_decide_unpack _); by vm_compute|intros ?|]
    | apply sound_bind; [|intros ?]
    | apply sound_when; intros ?
    | match goal with |- sound _ (if ?b then _ else _) => destruct b end ].
Qed.

Lemma sound_resolve_getaddrinfo self p :
  option_extdns self = false → sound self (resolve_getaddrinfo p).
Proof.
  intros Hext. unfold resolve_getaddrinfo.
  apply sound_bind; [apply sound_domain_name|intros name].
  apply sound_bind; [apply sound_emit; simpl; by rewrite Hext|intros _].
  destruct (gai p); sound; by apply key_allowed_always; apply (bool_decide_unpack _).
Qed.

Lemma sound_mxcheck_block self p : sound self (mxcheck_block self p).
Proof.
  unfold mxcheck_block. apply sound_when. intros Hopt.
  apply sound_bind; [apply sound_local|intros mx].
  apply sound_when. intros _.
  apply sound_bind; [apply sound_getitem|intros v].
  destruct v; sound; allowed Hopt.
Qed.

Lemma sound_whois_block self p : sound self (whois_block self p).
Proof.
  unfold whois_block. apply sound_when. intros Hopt.
  apply sound_bind; [apply sound_local|intros nx].
  destruct (negb nx); [|apply sound_ret].
  apply sound_bind; [apply sound_local|intros ns].
  apply sound_when. intros _. unfold try_pass.
  apply sound_try_else; [|intros ?; apply sound_ret].
  apply sound_bind; [apply sound_domain_name|intros name].
  apply sound_bind; [apply sound_emit; allowed Hopt|intros _].
  destruct (whois_dates p) as [[created updated]|]; sound; allowed Hopt.
Qed.

Lemma sound_geoip_block self p : sound self (geoip_block self p).
Proof.
  unfold geoip_block. apply sound_when. intros Hopt.
  apply sound_bind; [apply sound_local|intros a].
  apply sound_when. intros _.
  apply sound_bind; [destruct (geoip p); sound|intros _].
  apply sound_try_else.
  - apply sound_bind; [apply sound_getitem|intros l].
    apply sound_bind; [apply sound_first_of|intros ip].
    apply sound_bind; [apply sound_emit; allowed Hopt|intros _].
    destruct (geoip p); sound.
  - intros [[|c cs]|]; sound. allowed Hopt.
Qed.

Lemma sound_banners_block self p : sound self (banners_block self p).
Proof.
  unfold banners_block. apply sound_when. intros Hopt.
  apply sound_bind; [apply sound_local|intros a].
  apply sound_bind; [destruct a; sound|intros a4].
  apply sound_bind.
  - apply sound_when. intros _.
    apply sound_bind; [apply sound_getitem|intros l].
    apply sound_bind; [apply sound_first_of|intros ip].
    apply sound_bind; [apply sound_domain_name|intros name].
    apply sound_bind; [apply sound_emit; allowed Hopt|intros _].
    destruct (banner_http _) as [[|c banner]|]; sound. allowed Hopt.
  - intros _. apply sound_bind; [apply sound_local|intros mx].
    apply sound_when. intros _.
    apply sound_bind; [apply sound_getitem|intros l].
    apply sound_bind; [apply sound_first_of|intros mx0].
    apply sound_bind; [apply sound_emit; allowed Hopt|intros _].
    destruct (banner_smtp _) as [[|c banner]|]; sound. allowed Hopt.
Qed.

Lemma sound_ssdeep_block self p : sound self (ssdeep_block self p).
Proof.
  unfold ssdeep_block. apply sound_when. intros Hopt.
  apply sound_bind; [apply sound_local|intros a].
  apply sound_bind; [destruct a; sound|intros a4].
  apply sound_when. intros _.
  apply sound_try_else.
  - apply sound_bind; [apply sound_domain_name|intros name].
    apply sound_bind; [apply sound_emit; allowed Hopt|intros _].
    destruct (http_get p); sound.
  - intros req. apply sound_when. intros _. apply sound_setitem. allowed Hopt.
Qed.

Lemma sound_to_ascii self : sound self to_ascii.
Proof.
  unfold to_ascii. apply sound_bind; [apply sound_domain_name|intros name].
  destruct (idna_encode name); sound. by vm_compute.
Qed.

Lemma sound_to_unicode self : sound self to_unicode.
Proof.
  unfold to_unicode. apply sound_bind; [apply sound_domain_name|intros name].
  destruct (idna_decode name); sound. by vm_compute.
Qed.

Lemma sound_process self p : sound self (process self p).
Proof.
  unfold process.
  apply sound_bind; [apply sound_to_ascii|intros _].
  apply sound_bind.
  { destruct (option_extdns self) eqn:Hext;
      [by apply sound_resolve_extdns|by apply sound_resolve_getaddrinfo]. }
  intros _. apply sound_bind; [apply sound_mxcheck_block|intros _].
  apply sound_bind; [apply sound_whois_block|intros _].
  apply sound_bind; [apply sound_geoip_block|intros _].
  apply sound_bind; [apply sound_banners_block|intros _].
  apply sound_bind; [apply sound_ssdeep_block|intros _].
  apply sound_bind; [apply sound_to_unicode|intros _].
  by apply sound_emit.
Qed.

(** X15.  However the loop body ends for a candidate, it leaves the list
    of finished records as it was, deletes no key of the record, and
    leaves every key outside the footprint of the enabled options (the
    [fuzzer] tag among them) with its value. *)
Theorem process_touches_only_its_keys (self : t) (p : probes) (s : state) (k : string) :
  finished (process self p s).2 = finished s
  ∧ (is_Some (domain s !! k) → is_Some (domain (process self p s).2 !! k))
  ∧ (key_allowed self k = false → domain (process self p s).2 !! k = domain s !! k).
Proof.
  destruct (sound_process self p s) as [Hf _ _ Hd].
  split; [done|]. destruct (Hd k) as [E|[Hk Hs]].
  - rewrite E. split; done.
  - split; [done|]. congruence.
Qed.

(** X16.  However the loop body ends, the events it sent are appended to
    the log and each belongs to an enabled option: DNS queries only with
    the resolver, [getaddrinfo] only without it, and the relay probe,
    whois, GeoIP, banner and HTTP requests only under their options. *)
Theorem process_probes_only_what_is_enabled (self : t) (p : probes) (s : state) :
  ∃ evs, log (process self p s).2 = log s ++ evs
         ∧ ∀ e, e ∈ evs → event_allowed self e = true.
Proof.
  destruct (sound_process self p s) as [_ _ (evs & Hl & He) _].
  exists evs. split; [done|]. by apply Forall_forall.
Qed.

(** One turn of the loop. *)
Lemma run_loop_cons self job p jobs s :
  run_loop self ((job, p) :: jobs) s
  = match process self p (with_domain (λ _, job) s) with
    | (Ok _, s1) =>
        run_loop self jobs
          {| domain := domain s1; vars := vars s1; heap_next := heap_next s1;
             log := log s1; finished := finished s1 ++ [domain s1] |}
    | (Raise e, s1) => (Raise e, s1)
    end.
Proof.
  cbn [run_loop]. unfold bind at 1 2. cbn [fst snd].
  by destruct (process self p _) as [[[]|e] s1].
Qed.

(** The loop, for whatever way it ends. *)
Lemma run_loop_records self jobs s :
  ∃ records,
    finished (run_loop self jobs s).2 = finished s ++ records
    ∧ match (run_loop self jobs s).1 with
      | Ok _ => length records = length jobs
      | Raise _ => length records < length jobs
      end
    ∧ ∀ i job record k,
        jobs.*1 !! i = Some job → records !! i = Some record →
        key_allowed self k = false → record !! k = job !! k.
Proof.
  revert s. induction jobs as [|[job p] jobs IH]; intros s.
  { exists []. simpl. rewrite app_nil_r. split; [done|]. split; [done|].
    intros i ? ? ? Hi. by rewrite lookup_nil in Hi. }
  rewrite run_loop_cons.
  pose proof (sound_process self p (with_domain (λ _, job) s)) as [Hf _ _ Hd].
  destruct (process self p _) as [[[]|e] s1]; cbn [snd] in Hf, Hd.
  - match goal with |- context [run_loop self jobs ?s2] => set (s2' := s2) end.
    destruct (IH s2') as (records & Hfin & Hlen & Hrec).
    exists (domain s1 :: records). split; [|split].
    + rewrite Hfin. subst s2'. cbn [finished]. rewrite Hf. simpl.
      by rewrite <- app_assoc.
    + revert Hlen. destruct (run_loop self jobs s2').1; simpl; lia.
    + intros [|i] job' record k Hi Hr Hk.
      * simpl in Hi, Hr. injection Hi as <-. injection Hr as <-.
        destruct (Hd k) as [E|[Hk' _]]; [|congruence]. by rewrite E.
      * simpl in Hi, Hr. by eapply Hrec.
  - exists []. cbn [fst snd]. rewrite app_nil_r. split; [by rewrite Hf|].
    split; [simpl; lia|]. intros i ? ? ? _ Hi. by rewrite lookup_nil in Hi.
Qed.

(** X19.  [run] finishes the jobs in queue order: the finished records
    extend the earlier ones; a worker whose kill flag is set finishes
    none; a run that returns has finished every job, a run that raises
    strictly fewer; and a finished record agrees with its queued job on
    every key outside the footprint. *)
Theorem run_completes_jobs_in_order (self : t)
    (jobs : list (gmap string value * probes)) (s : state) :
  ∃ records,
    finished (run self jobs s).2 = finished s ++ records
    ∧ (kill_received self = true → records = [])
    ∧ (kill_received self = false → (run self jobs s).1 = Ok tt →
       length records = length jobs)
    ∧ (∀ e, (run self jobs s).1 = Raise e → length records < length jobs)
    ∧ ∀ i job record k,
        jobs.*1 !! i = Some job → records !! i = Some record →
        key_allowed self k = false → record !! k = job !! k.
Proof.
  unfold run. destruct (kill_received self).
  { exists []. simpl. rewrite app_nil_r. repeat split; try done.
    all: intros i ? ? ? _ Hi; by rewrite lookup_nil in Hi. }
  destruct (run_loop_records self jobs s) as (records & Hfin & Hlen & Hrec).
  exists records. split; [done|]. split; [done|]. split; [|split; [|done]].
  - intros _ Hok. by rewrite Hok in Hlen.
  - intros e He. by rewrite He in Hlen.
Qed.

End frame.

(** *** NXDOMAIN *)

Section nxdomain.
Context `{PyRuntime}.
Import DomainThread.
Open Scope run_scope.

Lemma to_ascii_run s addr name ascii :
  domain s !! "domain-name" = Some (VStr addr name) →
  idna_encode name = Some ascii →
  to_ascii s
  = (Ok tt, {| domain := <["domain-name" := VStr (heap_next s) ascii]> (domain s);
               vars := vars s; heap_next := S (heap_next s); log := log s;
               finished := finished s |}).
Proof.
  intros Hname Henc. unfold to_ascii, domain_name, bind, getitem.
  rewrite Hname. cbn [text_of ret]. by rewrite Henc.
Qed.

Lemma to_unicode_run s addr name uni :
  domain s !! "domain-name" = Some (VStr addr name) →
  idna_decode name = Some uni →
  to_unicode s
  = (Ok tt, {| domain := <["domain-name" := VStr (heap_next s) uni]> (domain s);
               vars := vars s; heap_next := S (heap_next s); log := log s;
               finished := finished s |}).
Proof.
  intros Hname Hdec. unfold to_unicode, domain_name, bind, getitem.
  rewrite Hname. cbn [text_of ret]. by rewrite Hdec.
Qed.

Lemma resolve_extdns_nxdomain p s addr name :
  domain s !! "domain-name" = Some (VStr addr name) →
  q_ns p = NXDOMAIN →
  resolve_extdns p s
  = (Ok tt, {| domain := domain s; vars := settled; heap_next := heap_next s;
               log := log s ++ [Query NS name]; finished := finished s |}).
Proof.
  intros Hname Hns. unfold resolve_extdns, query, domain_name, bind, getitem.
  cbn. rewrite Hname. cbn. rewrite Hns. cbn. done.
Qed.

(** With the flags of an NXDOMAIN answer every later block is skipped. *)
Lemma mxcheck_block_skipped self p s :
  dns_mx (vars s) = Some false → mxcheck_block self p s = (Ok tt, s).
Proof.
  intros Hv. unfold mxcheck_block. destruct (option_mxcheck self); [|done].
  cbn [when]. by rewrite (local_bind _ _ _ false).
Qed.

Lemma whois_block_skipped self p s :
  nxdomain (vars s) = Some true → whois_block self p s = (Ok tt, s).
Proof.
  intros Hv. unfold whois_block. destruct (option_whois self); [|done].
  cbn [when]. by rewrite (local_bind _ _ _ true).
Qed.

Lemma geoip_block_skipped self p s :
  dns_a (vars s) = Some false → geoip_block self p s = (Ok tt, s).
Proof.
  intros Hv. unfold geoip_block. destruct (option_geoip self); [|done].
  cbn [when]. by rewrite (local_bind _ _ _ false).
Qed.

Lemma banners_block_skipped self p s :
  dns_a (vars s) = Some false → dns_aaaa (vars s) = Some false →
  dns_mx (vars s) = Some false → banners_block self p s = (Ok tt, s).
Proof.
  intros Ha Haaaa Hmx. unfold banners_block.
  destruct (option_banners self); [|done].
  cbn [when]. rewrite (local_bind _ _ _ false) by done.
  rewrite (local_bind _ _ _ false) by done. cbn [when].
  rewrite (bind_run _ _ _ tt) by done. cbn [ret snd].
  by rewrite (local_bind _ _ _ false).
Qed.

Lemma ssdeep_block_skipped self p s :
  dns_a (vars s) = Some false → dns_aaaa (vars s) = Some false →
  ssdeep_block self p s = (Ok tt, s).
Proof.
  intros Ha Haaaa. unfold ssdeep_block.
  destruct (option_ssdeep self); [|done].
  cbn [when]. rewrite (local_bind _ _ _ false) by done.
  by rewrite (local_bind _ _ _ false).
Qed.

(** X17.  With the resolver, an NXDOMAIN answer to the NS query ends the
    work on the candidate whatever the other options are: the body
    returns, the only events are the NS query and the task's completion,
    and the record keeps its keys, with the name decoded back; so the
    record has as many keys as it was queued with. *)
Theorem nxdomain_stops_every_probe (self : t) (p : probes) (s : state)
    (addr : nat) (name ascii uni : list N) :
  option_extdns self = true →
  q_ns p = NXDOMAIN →
  domain s !! "domain-name" = Some (VStr addr name) →
  idna_encode name = Some ascii →
  idna_decode ascii = Some uni →
  (process self p s).1 = Ok tt
  ∧ log (process self p s).2 = log s ++ [Query NS ascii; TaskDone]
  ∧ domain (process self p s).2
    = <["domain-name" := VStr (S (heap_next s)) uni]> (domain s)
  ∧ size (domain (process self p s).2) = size (domain s).
Proof.
  intros Hext Hns Hname Henc Hdec. unfold process. rewrite Hext.
  rewrite (bind_run _ _ _ tt) by (by erewrite to_ascii_run).
  erewrite to_ascii_run by done. cbn [snd].
  rewrite (bind_run _ _ _ tt)
    by (erewrite resolve_extdns_nxdomain; [done|apply lookup_insert_eq|done]).
  erewrite resolve_extdns_nxdomain; [|apply lookup_insert_eq|done]. cbn [snd].
  rewrite (bind_run _ _ _ tt) by (by rewrite mxcheck_block_skipped).
  rewrite mxcheck_block_skipped by done. cbn [snd].
  rewrite (bind_run _ _ _ tt) by (by rewrite whois_block_skipped).
  rewrite whois_block_skipped by done. cbn [snd].
  rewrite (bind_run _ _ _ tt) by (by rewrite geoip_block_skipped).
  rewrite geoip_block_skipped by done. cbn [snd].
  rewrite (bind_run _ _ _ tt) by (by rewrite banners_block_skipped).
  rewrite banners_block_skipped by done. cbn [snd].
  rewrite (bind_run _ _ _ tt) by (by rewrite ssdeep_block_skipped).
  rewrite ssdeep_block_skipped by done. cbn [snd].
  rewrite (bind_run _ _ _ tt)
    by (erewrite to_unicode_run; [done|apply lookup_insert_eq|done]).
  erewrite to_unicode_run; [|apply lookup_insert_eq|done].
  cbn. split; [done|]. split; [by rewrite <- app_assoc|].
  rewrite insert_insert_eq. split; [done|].
  by rewrite map_size_insert_Some.
Qed.

End nxdomain.

(** *** Hits and [--registered] *)

Section after_the_workers.
Import DomainThread.

Lemma size_three (d : gmap string value) (a b c : string) :
  a ≠ b → a ≠ c → b ≠ c →
  is_Some (d !! a) → is_Some (d !! b) → is_Some (d !! c) → 2 < size d.
Proof.
  intros Hab Hac Hbc Ha Hb Hc.
  assert (H1 : is_Some (delete a d !! b)) by (by rewrite lookup_delete_ne).
  assert (H2 : is_Some (delete b (delete a d) !! c))
    by (by rewrite !lookup_delete_ne).
  destruct H2 as [x H2].
  pose proof (map_size_delete_Some a d Ha) as E1.
  pose proof (map_size_delete_Some b _ H1) as E2.
  assert (size (delete b (delete a d)) ≠ 0).
  { apply map_size_non_empty_iff. intros E. by rewrite E in H2. }
  lia.
Qed.

(** X18.  Of records that hold the generator's two keys, every one
    counted as a hit ([dns-ns] or [dns-a] present) is kept by
    [--registered], so the number of hits is at most the number of
    records kept. *)
Theorem hits_survive_registered (domains : list (gmap string value)) :
  Forall (λ d, is_Some (d !! "fuzzer") ∧ is_Some (d !! "domain-name")) domains →
  hits_total domains ≤ length (registered domains)
  ∧ ∀ d, d ∈ domains → is_Some (d !! "dns-ns") ∨ is_Some (d !! "dns-a") →
         d ∈ registered domains.
Proof.
  intros Hkeys.
  assert (Hhit : ∀ d, d ∈ domains →
            is_Some (d !! "dns-ns") ∨ is_Some (d !! "dns-a") → 2 < size d).
  { intros d Hd Hhit. rewrite Forall_forall in Hkeys.
    destruct (Hkeys d Hd) as [Hf Hn].
    destruct Hhit as [Hns|Ha];
      [apply (size_three d "fuzzer" "domain-name" "dns-ns")
      |apply (size_three d "fuzzer" "domain-name" "dns-a")]; done. }
  split.
  - clear Hkeys. unfold hits_total, registered.
    induction domains as [|d ds IH]; [done|].
    rewrite fmap_cons. cbn [sum_list sum_list_with].
    assert (IH' : sum_list ((λ d, if bool_decide (is_Some (d !! "dns-ns") ∨ is_Some (d !! "dns-a"))
                  then 1 else 0) <$> ds) ≤ length (filter (λ d, 2 < size d) ds)).
    { apply IH. intros d' Hd'. apply Hhit. by right. }
    destruct (bool_decide_reflect (is_Some (d !! "dns-ns") ∨ is_Some (d !! "dns-a")))
      as [Hd|Hd].
    + rewrite filter_cons_True by (apply Hhit; [by left|done]). simpl. lia.
    + destruct (decide (2 < size d)).
      * rewrite filter_cons_True by done. simpl. lia.
      * rewrite filter_cons_False by done. simpl. lia.
  - intros d Hd Hh. apply list_elem_of_filter. split; [by apply Hhit|done].
Qed.

End after_the_workers.

(** The theorem at a worker with every modelled option set and the
    queued [examplea.com]. *)
Lemma nxdomain_stops_examplea_com :
  let s := DomainThread.with_domain (λ _, job "Addition" 1 (u "examplea.com"))
             (DomainThread.fresh 3) in
  let r := DomainThread.process (H := ascii_runtime) (worker true true true)
             no_such_name s in
  r.1 = Ok tt
  ∧ DomainThread.log r.2
    = DomainThread.log s
      ++ [DomainThread.Query DomainThread.NS (u "examplea.com"); DomainThread.TaskDone]
  ∧ DomainThread.domain r.2
    = <["domain-name" := DomainThread.VStr (S (DomainThread.heap_next s))
                           (u "examplea.com")]> (DomainThread.domain s)
  ∧ size (DomainThread.domain r.2) = size (DomainThread.domain s).
Proof.
  intros s r.
  apply (nxdomain_stops_every_probe (H := ascii_runtime) (worker true true true)
           no_such_name s 1 (u "examplea.com") (u "examplea.com")
           (u "examplea.com")); vm_compute; reflexivity.
Defined.

(** The theorem at one record with an answer to the NS query and one
    without any. *)
Lemma hits_survive_registered_on_two_records :
  let hit := <["dns-ns" := DomainThread.VList [u "ns1.example.net"]]>
               (job "Addition" 1 (u "examplea.com")) in
  let miss := job "Addition" 3 (u "exampleb.com") in
  hits_total [hit; miss] ≤ length (registered [hit; miss])
  ∧ ∀ d, d ∈ [hit; miss] →
         is_Some (d !! "dns-ns") ∨ is_Some (d !! "dns-a") →
         d ∈ registered [hit; miss].
Proof.
  intros hit miss. apply (hits_survive_registered [hit; miss]).
  repeat (apply Forall_cons; split; [split; vm_compute; eexists; reflexivity|]).
  by apply Forall_nil.
Defined.

(** *** The flags from one candidate to the next *)

Section stale.
Context `{PyRuntime}.
Import DomainThread.
Open Scope run_scope.

Lemma resolve_extdns_resets p f s :
  resolve_extdns p (with_vars f s) = resolve_extdns p s.
Proof.
  reflexivity.
Qed.

Lemma to_ascii_with_vars {X} (k : unit → M X) f s :
  bind to_ascii k (with_vars f s)
  = match to_ascii s with
    | (Ok x, s1) => k x (with_vars f s1)
    | (Raise e, s1) => (Raise e, with_vars f s1)
    end.
Proof.
  unfold to_ascii, domain_name, bind, getitem. cbn [with_vars domain].
  destruct (domain s !! "domain-name") as [[addr name| | |]|]; try done.
  cbn [text_of ret]. by destruct (idna_encode name).
Qed.

Lemma resolve_extdns_bind_resets {X} (k : unit → M X) p f s :
  bind (resolve_extdns p) k (with_vars f s) = bind (resolve_extdns p) k s.
Proof. unfold bind. by rewrite resolve_extdns_resets. Qed.

(** X20.  With the resolver the local flags are set anew for every
    candidate: whatever flags an earlier candidate left, the loop body
    ends the same way, stores the same record and sends the same
    requests. *)
Theorem resolver_ignores_stale_flags (self : t) (p : probes) (s : state)
    (f : locals → locals) :
  option_extdns self = true →
  (process self p (with_vars f s)).1 = (process self p s).1
  ∧ domain (process self p (with_vars f s)).2 = domain (process self p s).2
  ∧ log (process self p (with_vars f s)).2 = log (process self p s).2.
Proof.
  intros Hext. unfold process. rewrite Hext.
  rewrite to_ascii_with_vars.
  assert (Hb : ∀ k : unit → M unit,
             bind to_ascii k s
             = match to_ascii s with
               | (Ok x, s1) => k x s1
               | (Raise e, s1) => (Raise e, s1)
               end) by done.
  rewrite Hb.
  destruct (to_ascii s) as [[[]|e] s1]; [|done].
  by rewrite resolve_extdns_bind_resets.
Qed.

End stale.

(** The theorem at the flags an NXDOMAIN answer leaves. *)
Lemma resolver_ignores_flags_of_examplea_com :
  let self := worker true true true in
  let s := DomainThread.with_domain (λ _, job "Addition" 1 (u "examplea.com"))
             (DomainThread.fresh 3) in
  let f := λ _, settled in
  (DomainThread.process (H := ascii_runtime) self open_relay (DomainThread.with_vars f s)).1
  = (DomainThread.process (H := ascii_runtime) self open_relay s).1
  ∧ DomainThread.domain (DomainThread.process (H := ascii_runtime) self open_relay (DomainThread.with_vars f s)).2
    = DomainThread.domain (DomainThread.process (H := ascii_runtime) self open_relay s).2
  ∧ DomainThread.log (DomainThread.process (H := ascii_runtime) self open_relay (DomainThread.with_vars f s)).2
    = DomainThread.log (DomainThread.process (H := ascii_runtime) self open_relay s).2.
Proof.
  intros self s f.
  apply (resolver_ignores_stale_flags (H := ascii_runtime) self open_relay s f).
  reflexivity.
Defined.

(** *** answer_to_list *)

Section answers.

Lemma str_leb_total a b : str_leb a b = true ∨ str_leb b a = true.
Proof.
  revert b. induction a as [|x a IH]; intros [|y b]; simpl; try tauto.
  destruct (N.lt_trichotomy x y) as [Hlt|[->|Hgt]].
  - left. apply orb_true_iff. left. by apply N.ltb_lt.
  - rewrite N.ltb_irrefl, N.eqb_refl. simpl. apply IH.
  - right. apply orb_true_iff. left. by apply N.ltb_lt.
Qed.

Lemma str_leb_trans a b c :
  str_leb a b = true → str_leb b c = true → str_leb a c = true.
Proof.
  revert b c. induction a as [|x a IH]; intros [|y b] [|z c]; simpl; try done.
  rewrite !orb_true_iff, !andb_true_iff, !N.ltb_lt, !N.eqb_eq.
  intros [Hxy|[-> Hab]] [Hyz|[-> Hbc]].
  - left. lia.
  - by left.
  - by left.
  - right. split; [done|]. by eapply IH.
Qed.

#[local] Instance str_le_total : Total str_le.
Proof.
  intros a b. unfold str_le. destruct (str_leb_total a b) as [->| ->]; [by left|by right].
Qed.

#[local] Instance str_le_trans : Transitive str_le.
Proof.
  intros a b c. unfold str_le. rewrite !Is_true_true. apply str_leb_trans.
Qed.

Lemma span_snd_head (p : N → bool) s c :
  head (span p s).2 = Some c → p c = false.
Proof.
  induction s as [|x s IH]; simpl; [done|].
  destruct (p x) eqn:Ep.
  - destruct (span p s) as [a b]. simpl in *. done.
  - simpl. by intros [= <-].
Qed.

Lemma span_snd_suffix (p : N → bool) s : (span p s).2 `suffix_of` s.
Proof.
  induction s as [|x s IH]; simpl; [done|].
  destruct (p x); [|done].
  destruct (span p s) as [a b]. simpl in *. by apply suffix_cons_r.
Qed.

Lemma strip_char_ends c s :
  head (strip_char c s) ≠ Some c ∧ last (strip_char c s) ≠ Some c.
Proof.
  unfold strip_char. cbn zeta.
  set (front := (span (λ x, (x =? c)%N) s).2).
  set (back := (span (λ x, (x =? c)%N) (reverse front)).2).
  assert (Hback : head back ≠ Some c).
  { intros Hh. apply span_snd_head in Hh. by rewrite N.eqb_refl in Hh. }
  assert (Hfront : head front ≠ Some c).
  { intros Hh. apply span_snd_head in Hh. by rewrite N.eqb_refl in Hh. }
  split.
  - rewrite head_reverse. intros Hl.
    destruct (span_snd_suffix (λ x, (x =? c)%N) (reverse front)) as [k Hk].
    fold back in Hk.
    destruct back as [|b back] using rev_ind; [done|].
    clear IHback. rewrite last_snoc in Hl. injection Hl as ->.
    apply (f_equal reverse) in Hk. rewrite reverse_involutive, reverse_app, reverse_app in Hk.
    simpl in Hk. apply Hfront. by rewrite Hk.
  - by rewrite last_reverse.
Qed.

(** X21.  [answer_to_list] returns one string for each record, in
    ascending order of code points, none of which begins or ends with a
    dot. *)
Theorem answer_to_list_sorted_and_stripped (answers : list (list N)) :
  StronglySorted str_le (DomainThread.answer_to_list answers)
  ∧ length (DomainThread.answer_to_list answers) = length answers
  ∧ ∀ x, x ∈ DomainThread.answer_to_list answers →
         head x ≠ Some DOT ∧ last x ≠ Some DOT.
Proof.
  unfold DomainThread.answer_to_list, sorted. split; [|split].
  - apply StronglySorted_merge_sort; apply _.
  - by rewrite merge_sort_Permutation, length_fmap.
  - intros x Hx. rewrite merge_sort_Permutation in Hx.
    apply list_elem_of_fmap in Hx as (record & -> & _).
    cbn zeta. destruct (_ =? 1); apply strip_char_ends.
Qed.

End answers.

(** *** A constructed parser *)

Section constructed.
Context `{PyRuntime}.
Import UrlParser.

Lemma validate_domain_true d :
  validate_domain d = Ok true →
  length d ≤ 255 ∧ ∃ d0, domain_form d0 ∧ (d = d0 ∨ d = d0 ++ [DOT]).
Proof.
  unfold validate_domain. destruct (255 <? length d) eqn:El; [done|].
  apply Nat.ltb_ge in El. intros Hv. split; [done|].
  destruct (last d) as [c|] eqn:Ec; [|done].
  destruct (N.eqb_spec c DOT) as [->|Hc]; injection Hv as Ha;
    apply allowed_match_spec in Ha.
  - exists (removelast d). split; [done|]. right.
    destruct d as [|x d] using rev_ind; [done|].
    rewrite last_snoc in Ec. injection Ec as ->.
    by rewrite removelast_last.
  - exists d. split; [done|by left].
Qed.

(** X22.  A parser that was constructed holds checked fields: its
    [url] is the input, with [http://] put before it when it has no
    [://]; its scheme is empty or begins with [http]; its authority and
    domain are both empty, or the domain is the lower-cased authority up
    to the first colon, has at most 255 characters and is of the
    pattern's form, with or without a final dot; its query is empty or
    begins with a question mark. *)
Theorem constructed_parser_is_checked (url0 : list N) (p : t) :
  init url0 = Ok p →
  url p = (if contains (u "://") url0 then url0 else u "http://" ++ url0)
  ∧ (scheme p = [] ∨ startswith (u "http") (scheme p) = true)
  ∧ (authority p = [] ∧ domain p = []
     ∨ domain p = str_lower (hd [] (split_on COLON (authority p)))
       ∧ length (domain p) ≤ 255
       ∧ ∃ d, domain_form d ∧ (domain p = d ∨ domain p = d ++ [DOT]))
  ∧ (query p = [] ∨ head (query p) = Some QMARK).
Proof.
  unfold init, parse. cbn [url scheme authority domain path query].
  set (url1 := if contains (u "://") url0 then url0 else u "http://" ++ url0).
  destruct (re_rfc3986_enhanced_match url1) as [m|]; [|intros [= <-]; simpl; tauto].
  set (sch := match g_scheme m with
              | Some (c :: s) => if startswith (u "http") (c :: s) then c :: s else u "http"
              | _ => []
              end).
  assert (Hsch : sch = [] ∨ startswith (u "http") sch = true).
  { subst sch. destruct (g_scheme m) as [[|c s]|]; [by left| |by left].
    destruct (startswith (u "http") (c :: s)) eqn:Es; right; [done|by vm_compute]. }
  destruct (g_scheme m) as [[|c s]|]; [| |];
    try destruct (startswith (u "http") (c :: s));
    cbn [url scheme authority domain path query];
    (destruct (g_authority m) as [[|a auth]|];
     [| destruct (validate_domain _) as [[]|e] eqn:Ev; [|done|done] |]);
    cbn [url scheme authority domain path query];
    destruct (g_path m) as [|x pth]; cbn [url scheme authority domain path query];
    destruct (g_query m) as [[|q qry]|]; intros [= <-];
    cbn [url scheme authority domain path query];
    (split; [done|]); (split; [exact Hsch|]);
    (split; [|first [by left|by right]]);
    first [by left | right; split; [done|by apply validate_domain_true]].
Qed.

End constructed.

(** *** __domain_tld *)

Section domain_tld.
Import DomainFuzz.

Lemma join_app sep (l1 l2 : list (list N)) :
  l1 ≠ [] → l2 ≠ [] → join sep (l1 ++ l2) = join sep l1 ++ sep ++ join sep l2.
Proof.
  intros H1 H2. induction l1 as [|p [|q l1] IH]; [done| |].
  - destruct l2; [done|]. by rewrite <- join_cons_cons.
  - change ((p :: q :: l1) ++ l2) with (p :: q :: (l1 ++ l2)).
    rewrite !join_cons_cons.
    change (q :: (l1 ++ l2)) with ((q :: l1) ++ l2). rewrite IH by done.
    by rewrite <- !app_assoc.
Qed.

Lemma join_nonempty sep (l : list (list N)) :
  l ≠ [] → Forall (λ p, p ≠ []) l → join sep l ≠ [].
Proof.
  intros Hl Hall. destruct l as [|p [|q l]]; [done| |].
  - by apply Forall_cons in Hall as [? _].
  - apply Forall_cons in Hall as [Hp _]. rewrite join_cons_cons. by destruct p.
Qed.

(** What [rsplit] returns for a name of two or more non-empty labels. *)
Lemma rsplit_dot_3_parts (s : list N) :
  2 ≤ length (split_on DOT s) → Forall (λ p, p ≠ []) (split_on DOT s) →
  2 ≤ length (rsplit_dot_3 s) ≤ 4
  ∧ Forall (λ p, p ≠ []) (rsplit_dot_3 s)
  ∧ join (u ".") (rsplit_dot_3 s) = s.
Proof.
  intros Hlen Hall. unfold rsplit_dot_3. cbn zeta.
  pose proof (join_split_on DOT s) as Hjoin.
  destruct (Nat.leb_spec (length (split_on DOT s)) 4) as [Hle|Hgt].
  { split; [lia|]. split; done. }
  set (parts := split_on DOT s) in *.
  set (k := length parts - 3).
  assert (Htake : take k parts ≠ []).
  { intros E. apply (f_equal length) in E. rewrite length_take in E. simpl in E. lia. }
  assert (Hdrop : length (drop k parts) = 3) by (rewrite length_drop; lia).
  split; [simpl; lia|]. split.
  - apply Forall_cons. split.
    + apply join_nonempty; [done|]. by apply Forall_take.
    + by apply Forall_drop.
  - transitivity (join [DOT] (take k parts ++ drop k parts));
      [|by rewrite take_drop].
    change (u ".") with [DOT].
    rewrite (join_app _ (take k parts)) by (done || (intros E; by rewrite E in Hdrop)).
    destruct (drop k parts) as [|x l]; [done|]. by rewrite join_cons_cons.
Qed.

(** X23.  [__domain_tld] without the [tld] package: a name with no dot
    gives [None] (which [__init__] cannot unpack); a name of two or more
    non-empty labels gives a non-empty registrable and a non-empty TLD,
    and the [Original*] entry assembled from the three parts is the name
    itself. *)
Theorem domain_tld_round_trip (domain : list N) :
  (DOT ∉ domain → domain_tld domain = None)
  ∧ (2 ≤ length (split_on DOT domain) →
     Forall (λ p, p ≠ []) (split_on DOT domain) →
     ∃ sub dom tl,
       domain_tld domain = Some (sub, dom, tl) ∧ dom ≠ [] ∧ tl ≠ []
       ∧ DomainFuzz.domain_name
           (DomainFuzz.original (DomainFuzz.init sub dom tl)) = domain).
Proof.
  split.
  - intros Hdot. unfold domain_tld, rsplit_dot_3. cbn zeta.
    by rewrite split_on_id.
  - intros Hlen Hall.
    destruct (rsplit_dot_3_parts domain Hlen Hall) as (Hn & Hne & Hjoin).
    unfold domain_tld. cbn zeta.
    unfold DomainFuzz.original, DomainFuzz.assemble, DomainFuzz.init, filter_None.
    cbn [DomainFuzz.domain_name DomainFuzz.subdomain DomainFuzz.domain DomainFuzz.tld].
    destruct (rsplit_dot_3 domain) as [|a [|b [|c [|e [|? ?]]]]];
      simpl in Hn; try lia.
    + apply Forall_cons in Hne as [Ha [Hb _]%Forall_cons].
      eexists _, _, _. split; [reflexivity|]. split; [done|]. split; [done|].
      rewrite (filter_cons_False _ []) by (intros Hx; by apply Hx).
      by rewrite !filter_cons_True, filter_nil by done.
    + apply Forall_cons in Hne as [Ha [Hb [Hc _]%Forall_cons]%Forall_cons].
      cbn [length Nat.eqb Nat.ltb Nat.leb Nat.sub lookup_total list_lookup_total take drop join].
      destruct (bool_decide (b ∈ ctld)).
      * eexists _, _, _. split; [reflexivity|]. split; [done|].
        split; [by destruct b|].
        rewrite (filter_cons_False _ []) by (intros Hx; by apply Hx).
        rewrite !filter_cons_True, filter_nil by (done || by destruct b).
        done.
      * eexists _, _, _. split; [reflexivity|]. split; [done|]. split; [done|].
        by rewrite !filter_cons_True, filter_nil by done.
    + apply Forall_cons in Hne as [Ha [Hb [Hc [He _]%Forall_cons]%Forall_cons]%Forall_cons].
      cbn [length Nat.eqb Nat.ltb Nat.leb Nat.sub lookup_total list_lookup_total take drop join].
      destruct (bool_decide (c ∈ ctld)).
      * eexists _, _, _. split; [reflexivity|]. split; [done|].
        split; [by destruct c|].
        rewrite !filter_cons_True, filter_nil by (done || by destruct c).
        rewrite <- Hjoin. simpl. by rewrite <- ?app_assoc.
      * eexists _, _, _. split; [reflexivity|]. split; [done|]. split; [done|].
        rewrite !filter_cons_True, filter_nil by (done || by destruct a).
        rewrite <- Hjoin. simpl. by rewrite <- ?app_assoc.
Qed.

End domain_tld.

(** The theorem at [example.com]. *)
Lemma constructed_parser_of_example_com :
  let p := {| UrlParser.url := u "http://example.com"; UrlParser.scheme := u "http";
              UrlParser.authority := u "example.com"; UrlParser.domain := u "example.com";
              UrlParser.path := []; UrlParser.query := [] |} in
  UrlParser.url p = (if contains (u "://") (u "example.com") then u "example.com"
                     else u "http://" ++ u "example.com")
  ∧ (UrlParser.scheme p = [] ∨ startswith (u "http") (UrlParser.scheme p) = true)
  ∧ (UrlParser.authority p = [] ∧ UrlParser.domain p = []
     ∨ UrlParser.domain p
       = str_lower (PyRuntime := ascii_runtime)
           (hd [] (split_on UrlParser.COLON (UrlParser.authority p)))
       ∧ length (UrlParser.domain p) ≤ 255
       ∧ ∃ d, domain_form d ∧ (UrlParser.domain p = d ∨ UrlParser.domain p = d ++ [DOT]))
  ∧ (UrlParser.query p = [] ∨ head (UrlParser.query p) = Some UrlParser.QMARK).
Proof.
  intros p.
  apply (constructed_parser_is_checked (H := ascii_runtime) (u "example.com") p).
  vm_compute. reflexivity.
Defined.

(** The theorem at [www.example.co.uk]. *)
Lemma domain_tld_of_www_example_co_uk :
  ∃ sub dom tl,
    DomainFuzz.domain_tld (u "www.example.co.uk") = Some (sub, dom, tl)
    ∧ dom ≠ [] ∧ tl ≠ []
    ∧ DomainFuzz.domain_name (DomainFuzz.original (DomainFuzz.init sub dom tl))
      = u "www.example.co.uk".
Proof.
  apply (proj2 (domain_tld_round_trip (u "www.example.co.uk"))).
  - vm_compute. lia.
  - apply (bool_decide_unpack _). vm_compute. exact I.
Defined.

(** *** Keyboard typos *)

Section keyboard_typos.
Context `{PyRuntime}.
Import DomainFuzz.

Lemma dict_get_elem {V} (keys : list (N * V)) c v :
  dict_get keys c = Some v → (c, v) ∈ keys.
Proof.
  induction keys as [|[k w] keys IH]; simpl; [done|].
  destruct (N.eqb_spec k c) as [->|Hne].
  - intros [= ->]. by left.
  - intros Hg. right. by apply IH.
Qed.

(** No key of a layout is listed among its own neighbours. *)
Lemma no_key_is_its_own_neighbour keys c cs :
  keys ∈ keyboards → dict_get keys c = Some cs → c ∉ cs.
Proof.
  intros Hk Hg%dict_get_elem.
  assert (Hall : Forall (λ keys, Forall (λ e : N * list N, e.1 ∉ e.2) keys) keyboards).
  { apply (bool_decide_unpack _). by vm_compute. }
  rewrite Forall_forall in Hall. specialize (Hall keys Hk).
  rewrite Forall_forall in Hall. by apply (Hall (c, cs)).
Qed.

(** X24.  A result of [__replacement] is never the registrable itself:
    it is the registrable with the character at one position replaced by
    a different one. *)
Theorem replacement_changes_one_character (d x : list N) :
  x ∈ replacement d →
  x ≠ d ∧ ∃ i c k, d !! i = Some c ∧ k ≠ c ∧ x = <[i := k]> d.
Proof.
  unfold replacement. rewrite set_to_list_elem.
  intros (i & Hx & [_ Hi]%elem_of_range)%list_elem_of_bind.
  apply list_elem_of_bind in Hx as (keys & Hx & Hkeys).
  destruct (dict_get keys (d !!! i)) as [cs|] eqn:Eg; [|by apply elem_of_nil in Hx].
  apply list_elem_of_bind in Hx as (k & Hx & Hk).
  apply list_elem_of_singleton in Hx.
  assert (Hdi : d !! i = Some (d !!! i)) by (by apply list_lookup_lookup_total_lt).
  assert (Hne : k ≠ d !!! i).
  { intros ->. by eapply no_key_is_its_own_neighbour. }
  assert (Hins : x = <[i := k]> d).
  { rewrite Hx, insert_take_drop by done. by replace (i + 1) with (S i) by lia. }
  split; [|by exists i, (d !!! i), k].
  intros E. rewrite E in Hins. apply (f_equal (λ l, l !! i)) in Hins.
  rewrite list_lookup_insert_eq in Hins by done. congruence.
Qed.

(** X25.  [__insertion] never touches the ends: every result begins
    with the first and ends with the last character of the registrable. *)
Theorem insertion_keeps_the_ends (d x : list N) :
  x ∈ insertion d → head x = head d ∧ last x = last d.
Proof.
  unfold insertion. rewrite set_to_list_elem.
  intros (i & Hx & [Hi1 Hi2]%elem_of_range)%list_elem_of_bind.
  apply list_elem_of_bind in Hx as (keys & Hx & Hkeys).
  destruct (dict_get keys (d !!! i)) as [cs|] eqn:Eg; [|by apply elem_of_nil in Hx].
  apply list_elem_of_bind in Hx as (k & Hx & Hk).
  assert (Hd : d = take i d ++ [d !!! i] ++ drop (i + 1) d).
  { rewrite <- (take_drop_middle d i (d !!! i)) at 1
      by (apply list_lookup_lookup_total_lt; lia).
    by replace (i + 1) with (S i) by lia. }
  assert (Htake : take i d ≠ []).
  { intros E. apply (f_equal length) in E. rewrite length_take in E. simpl in E. lia. }
  assert (Hdrop : drop (i + 1) d ≠ []).
  { intros E. apply (f_equal length) in E. rewrite length_drop in E. simpl in E. lia. }
  assert (Hhead : ∀ l, head (take i d ++ l) = head d).
  { intros l. rewrite <- (take_drop i d) at 2. by destruct (take i d). }
  assert (Hlast : ∀ l, last (l ++ drop (i + 1) d) = last d).
  { intros l. rewrite Hd at 2. rewrite !app_assoc.
    destruct (drop (i + 1) d) as [|y t] using rev_ind; [done|].
    by rewrite !app_assoc, !last_snoc. }
  rewrite !elem_of_cons, elem_of_nil in Hx.
  destruct Hx as [->|[->|[]]]; (split; [apply Hhead|]);
    rewrite !app_assoc; apply Hlast.
Qed.

End keyboard_typos.

(** The theorem at [ab] and its result [sb]. *)
Lemma replacement_of_ab_changes_a_character :
  u "sb" ≠ u "ab"
  ∧ ∃ i c k, u "ab" !! i = Some c ∧ k ≠ c ∧ u "sb" = <[i := k]> (u "ab").
Proof.
  apply (replacement_changes_one_character (H := ascii_runtime) (u "ab") (u "sb")).
  apply (bool_decide_unpack _). by vm_compute.
Defined.

(** The theorem at [abc] and its result [avbc]. *)
Lemma insertion_of_abc_keeps_the_ends :
  head (u "avbc") = head (u "abc") ∧ last (u "avbc") = last (u "abc").
Proof.
  apply (insertion_keeps_the_ends (H := ascii_runtime) (u "abc") (u "avbc")).
  apply (bool_decide_unpack _). by vm_compute.
Defined.

(** *** The worker without the resolver *)

Section no_resolver.
Context `{PyRuntime}.
Import DomainThread.
Open Scope run_scope.

(** [getaddrinfo] binds [dns_a] and [dns_aaaa] at most. *)
Lemma resolve_getaddrinfo_flags p s name :
  named s name →
  (resolve_getaddrinfo p s).1 = Ok tt
  ∧ nxdomain (vars (resolve_getaddrinfo p s).2) = nxdomain (vars s)
  ∧ dns_ns (vars (resolve_getaddrinfo p s).2) = dns_ns (vars s)
  ∧ dns_mx (vars (resolve_getaddrinfo p s).2) = dns_mx (vars s)
  ∧ log (resolve_getaddrinfo p s).2 = log s ++ [GetAddrInfo name].
Proof.
  intros Hname. unfold resolve_getaddrinfo.
  rewrite (bind_run _ _ _ name) by (by rewrite (domain_name_run s name)).
  rewrite (domain_name_run s name) by done. cbn [snd].
  rewrite (bind_run _ _ _ tt) by done.
  destruct (gai p) as [addrs|errno|]; [done| |done].
  by destruct (bool_decide (errno = (-3)%Z)).
Qed.

(** X26.  Without the resolver the locals [nxdomain], [dns_ns] and
    [dns_mx] are never bound.  So for the first candidate of a worker
    with [--mxcheck] or [--whois] the loop body raises
    [UnboundLocalError] right after [getaddrinfo], whatever the network
    answers, and the task is not marked done. *)
Theorem first_candidate_fails_without_resolver (self : t) (p : probes) (s : state)
    (addr : nat) (name ascii : list N) :
  option_extdns self = false →
  option_mxcheck self = true ∨ option_whois self = true →
  vars s = unbound →
  domain s !! "domain-name" = Some (VStr addr name) →
  idna_encode name = Some ascii →
  (process self p s).1 = Raise UnboundLocalError
  ∧ log (process self p s).2 = log s ++ [GetAddrInfo ascii].
Proof.
  intros Hext Hopt Hvars Hname Henc. unfold process. rewrite Hext.
  assert (Hasc : to_ascii s
    = (Ok tt, {| domain := <["domain-name" := VStr (heap_next s) ascii]> (domain s);
                 vars := vars s; heap_next := S (heap_next s); log := log s;
                 finished := finished s |})).
  { unfold to_ascii, domain_name, bind, getitem.
    rewrite Hname. cbn [text_of ret]. by rewrite Henc. }
  rewrite (bind_run _ _ _ tt) by (by rewrite Hasc).
  rewrite Hasc. cbn [snd].
  set (s1 := {| domain := _ |}).
  assert (Hn1 : named s1 ascii) by (exists (heap_next s); apply lookup_insert_eq).
  destruct (resolve_getaddrinfo_flags p s1 ascii Hn1) as (Hok & Hnx & Hns & Hmx & Hlog).
  rewrite (bind_run _ _ _ tt) by done.
  set (s2 := (resolve_getaddrinfo p s1).2) in *.
  cbn [vars log s1] in Hnx, Hns, Hmx, Hlog. rewrite Hvars in Hnx, Hns, Hmx.
  cbn [unbound nxdomain dns_ns dns_mx] in Hnx, Hns, Hmx.
  assert (Hmxc : option_mxcheck self = true →
                 mxcheck_block self p s2 = (Raise UnboundLocalError, s2)).
  { intros Hm. unfold mxcheck_block, bind, local. rewrite Hm. cbn [when].
    by rewrite Hmx. }
  assert (Hmxs : option_mxcheck self = false → mxcheck_block self p s2 = (Ok tt, s2)).
  { intros Hm. unfold mxcheck_block. by rewrite Hm. }
  assert (Hwho : option_whois self = true →
                 whois_block self p s2 = (Raise UnboundLocalError, s2)).
  { intros Hw. unfold whois_block, bind, local. rewrite Hw. cbn [when].
    by rewrite Hnx. }
  match goal with
  | |- (?k s2).1 = _ ∧ _ => assert (HK : k s2 = (Raise UnboundLocalError, s2))
  end.
  { unfold bind at 1. destruct (option_mxcheck self) eqn:Hm.
    - by rewrite Hmxc.
    - rewrite Hmxs by done. unfold bind at 1.
      destruct Hopt as [?|Hw]; [done|]. by rewrite Hwho. }
  rewrite HK. split; [done|]. exact Hlog.
Qed.

End no_resolver.

(** The theorem at a worker with [--mxcheck] only. *)
Lemma first_candidate_fails_with_mxcheck :
  let s := DomainThread.with_domain (λ _, job "Addition" 1 (u "examplea.com"))
             (DomainThread.fresh 3) in
  let r := DomainThread.process (H := ascii_runtime) (worker false false true) one_ipv4 s in
  r.1 = Raise UnboundLocalError
  ∧ DomainThread.log r.2
    = DomainThread.log s ++ [DomainThread.GetAddrInfo (u "examplea.com")].
Proof.
  intros s r.
  apply (first_candidate_fails_without_resolver (H := ascii_runtime)
           (worker false false true) one_ipv4 s 1 (u "examplea.com")
           (u "examplea.com")); try reflexivity.
  by left.
Defined.

(** *** The options that cannot fail *)

Section safe.
Context `{PyRuntime}.
Import DomainThread.
Open Scope run_scope.




End safe.


(** *** The identity test of the relay probe *)

Section identity_test.
Context `{PyRuntime}.
Import DomainThread.
Open Scope run_scope.






End identity_test.

